(** * The stream multiplexer of the dfuse JavaScript client

    A shallow embedding of [DefaultStreamClient] and [DefaultStream]
    (src/client/stream-client.ts, the second document of
    src/src/client/http-client.ts) and the properties of its registry,
    routing and restart logic.

    Conventions of the embedding.
    - [this.streams], a plain object used as a dictionary from request id
      to stream, is a [gmap string Ref] that holds its own properties;
      [Object.keys] enumerates them in the order of the map rather than in
      insertion order (no statement depends on that order).  A read
      [this.streams[id]] goes through the prototype chain: besides the own
      properties it finds what every object inherits from
      [Object.prototype] ([get_property]).
    - A [DefaultStream] is a mutable object shared between the registry and
      the handle given to the caller: stream objects live in a heap and
      both sides hold a reference [Ref] to them.
    - An [async] method is run up to its completion when it is awaited; a
      call that is not awaited (the restarts of [handleReconnection]) runs
      up to its first suspension and its continuation is resumed after the
      caller has returned.
    - [debug(...)] diagnostics are not observable and are left out. *)

From stdpp Require Import gmap strings list fin_maps.

Local Open Scope string_scope.
Local Open Scope list_scope.

(** ** Messages (src/message/outbound.ts, src/message/inbound.ts) *)

(** The fields of an outbound message the client reads or writes.  Block
    numbers are JavaScript numbers that are only copied, never computed
    with; they are integers here. *)
Module OutboundMessage.
Record t : Type := mk {
  type : string;
  req_id : string;
  start_block : option Z;
  data : string
}.

(** [restartMessage.start_block = n] on a copy of [m]. *)
Definition set_start_block (n : Z) (m : t) : t :=
  {| type := type m; req_id := req_id m; start_block := Some n; data := data m |}.
End OutboundMessage.

Module InboundMessage.
Record t : Type := mk {
  type : string;
  req_id : option string;
  data : string
}.
End InboundMessage.

(** Modelled from the spec: [unlistenMessage] of src/message/outbound.ts is
    not part of the sources at hand; it builds the "unlisten"/cancellation
    message for the given request id. *)
Definition unlistenMessage (req_id : string) : OutboundMessage.t :=
  {| OutboundMessage.type := "unlisten";
     OutboundMessage.req_id := req_id;
     OutboundMessage.start_block := None;
     OutboundMessage.data := req_id |}.

(** [StreamMarker] of src/types/stream.ts. *)
Record StreamMarker : Type := { atBlockNum : Z }.

(** ** Errors *)

(** [DfuseClientError(message, cause?)] is the only error the client
    builds itself.  [TransportError] stands for whatever the socket rejects
    with, [TypeError] for the runtime error of reading a property of
    [undefined] or of calling what is not a function. *)
#[local] Set Warnings "-register-all".
Inductive Error : Type :=
| DfuseClientError (message : string) (cause : option Error)
| TransportError (reason : string)
| TypeError (message : string).
#[local] Set Warnings "register-all".

Inductive Result (A : Type) : Type :=
| Returned (a : A)
| Thrown (e : Error).
Arguments Returned {A} a.
Arguments Thrown {A} e.

(** ** Observable events *)

(** Callbacks are caller code: a callback is known by its name and calling
    it is an event. *)
Definition OnStreamMessage : Type := string.
Definition OnStreamRestart : Type := string.

Inductive Reply : Type :=
| Succeeds
| Fails (cause : Error).

Inductive SocketCall : Type :=
| Connect
| Send (message : OutboundMessage.t)
| Disconnect
| SetApiToken (apiToken : string).

Inductive Event : Type :=
| SocketEvent (call : SocketCall) (reply : Reply)
| RegistryInsert (id : string)
| RegistryDelete (id : string)
| MessageCallback (handler : OnStreamMessage) (message : InboundMessage.t)
| RestartCallback (handler : OnStreamRestart).

(** ** The socket *)

(** Modelled from the spec: the [Socket] of src/types/socket.ts and
    src/client/socket.ts is an external collaborator, "either disconnected
    or connected", with [connect], [send], [disconnect] and [isConnected].
    Its calls succeed or fail as the environment decides: [script] holds
    the replies to the calls still to come, and a call finding it empty
    succeeds.  A successful [connect] leaves the socket connected, a
    successful [disconnect] leaves it disconnected, and nothing else
    changes [isConnected].  This socket does not call back into the
    client while one of its methods runs. *)
Module Socket.
Record t : Type := mk {
  isConnected : bool;
  script : list Reply
}.

Definition next_reply (s : t) : Reply := hd Succeeds (script s).

Definition after (call : SocketCall) (s : t) : t :=
  {| isConnected :=
       match next_reply s, call with
       | Succeeds, Connect => true
       | Succeeds, Disconnect => false
       | _, _ => isConnected s
       end;
     script := tl (script s) |}.
End Socket.

(** ** Program state *)

(** References to stream objects are positions in the heap. *)
Abbreviation Ref := nat (only parsing).

(** The fields of [DefaultStream].  [streamExists], [unregisterStream] and
    [socket] always point back to the one client and socket of the world
    and are not stored. *)
Record DefaultStream : Type := {
  id : string;
  onPostRestart : option OnStreamRestart;
  activeMarker : option StreamMarker;
  registrationMessage : OutboundMessage.t;
  onMessageHandler : OnStreamMessage
}.

(** The fields of [DefaultStreamClient], its socket, and the heap of
    stream objects. *)
Record World : Type := {
  streams : gmap string Ref;
  socket : Socket.t;
  autoRestartStreamsOnReconnect : bool;
  heap : list DefaultStream
}.

Definition set_streams (f : gmap string Ref → gmap string Ref) (w : World) : World :=
  {| streams := f (streams w); socket := socket w;
     autoRestartStreamsOnReconnect := autoRestartStreamsOnReconnect w;
     heap := heap w |}.

Definition set_socket (f : Socket.t → Socket.t) (w : World) : World :=
  {| streams := streams w; socket := f (socket w);
     autoRestartStreamsOnReconnect := autoRestartStreamsOnReconnect w;
     heap := heap w |}.

Definition set_heap (f : list DefaultStream → list DefaultStream) (w : World) : World :=
  {| streams := streams w; socket := socket w;
     autoRestartStreamsOnReconnect := autoRestartStreamsOnReconnect w;
     heap := f (heap w) |}.

(** ** The monad of JavaScript code: state, exceptions and a trace *)

Record Run (A : Type) : Type := {
  result : Result A;
  world : World;
  events : list Event
}.
Arguments result {A} _.
Arguments world {A} _.
Arguments events {A} _.

Definition M (A : Type) : Type := World → Run A.

Definition ret {A} (a : A) : M A :=
  λ w, {| result := Returned a; world := w; events := [] |}.

Definition throw {A} (e : Error) : M A :=
  λ w, {| result := Thrown e; world := w; events := [] |}.

(** The events of [evs] happened before those of the run [r]. *)
Definition prepend {A} (evs : list Event) (r : Run A) : Run A :=
  match r with
  | {| result := x; world := w; events := evs' |} =>
      {| result := x; world := w; events := evs ++ evs' |}
  end.

Definition bind {A B} (m : M A) (k : A → M B) : M B :=
  λ w,
    match m w with
    | {| result := Returned a; world := w'; events := evs |} => prepend evs (k a w')
    | {| result := Thrown e; world := w'; events := evs |} =>
        {| result := Thrown e; world := w'; events := evs |}
    end.

(** [try { m } catch (error) { handler error }] *)
Definition try_catch {A} (m : M A) (handler : Error → M A) : M A :=
  λ w,
    match m w with
    | {| result := Returned a; world := w'; events := evs |} =>
        {| result := Returned a; world := w'; events := evs |}
    | {| result := Thrown e; world := w'; events := evs |} =>
        prepend evs (handler e w')
    end.

(** How the promise of an [async] call settles.  A rejection stays inside
    the promise; it reaches the caller only where the promise is awaited
    (by [bind]). *)
Definition settle {A} (m : M A) : M (Result A) :=
  λ w,
    match m w with
    | {| result := x; world := w'; events := evs |} =>
        {| result := Returned x; world := w'; events := evs |}
    end.

Definition get {A} (f : World → A) : M A :=
  λ w, {| result := Returned (f w); world := w; events := [] |}.

Definition modify (f : World → World) : M unit :=
  λ w, {| result := Returned tt; world := f w; events := [] |}.

Definition emit (e : Event) : M unit :=
  λ w, {| result := Returned tt; world := w; events := [e] |}.

Declare Scope js_scope.
Delimit Scope js_scope with js.
Notation "x <- m ;; k" := (bind m (λ x, k))
  (at level 100, m at next level, right associativity) : js_scope.
Notation "m ;; k" := (bind m (λ _, k))
  (at level 100, right associativity) : js_scope.
Local Open Scope js_scope.

Fixpoint forEach {A} (l : list A) (f : A → M unit) : M unit :=
  match l with
  | [] => ret tt
  | x :: l' => f x ;; forEach l' f
  end.

Fixpoint mapM {A B} (l : list A) (f : A → M B) : M (list B) :=
  match l with
  | [] => ret []
  | x :: l' => y <- f x ;; ys <- mapM l' f ;; ret (y :: ys)
  end.

(** ** Calls to the socket *)

Definition socket_call (call : SocketCall) : M unit :=
  λ w,
    let reply := Socket.next_reply (socket w) in
    {| result := match reply with Succeeds => Returned tt | Fails e => Thrown e end;
       world := set_socket (Socket.after call) w;
       events := [SocketEvent call reply] |}.

(** ** Object access *)

(** Reading through a reference; a reference to nothing is [undefined]. *)
Definition deref (r : Ref) : M DefaultStream :=
  λ w,
    match heap w !! r with
    | Some s => ret s w
    | None => throw (TypeError "Cannot read property of undefined") w
    end.

(** The constructor of [DefaultStream]: a new stream has no marker and no
    [onPostRestart] hook. *)
Definition DefaultStream_constructor (id : string)
    (registrationMessage : OutboundMessage.t) (onMessage : OnStreamMessage)
    : DefaultStream :=
  {| id := id; onPostRestart := None; activeMarker := None;
     registrationMessage := registrationMessage; onMessageHandler := onMessage |}.

(** [new DefaultStream(...)]: the object is put at the end of the heap. *)
Definition new_DefaultStream (id : string) (registrationMessage : OutboundMessage.t)
    (onMessage : OnStreamMessage) : M Ref :=
  λ w,
    {| result := Returned (length (heap w));
       world := set_heap
                  (λ h, h ++ [DefaultStream_constructor id registrationMessage onMessage])
                  w;
       events := [] |}.

(** [Object.keys(this.streams)] *)
Definition Object_keys (m : gmap string Ref) : list string := (map_to_list m).*1.

(** The property names a plain object inherits from [Object.prototype]
    (ECMAScript, with the accessors of its Annex B). *)
Definition Object_prototype : list string :=
  ["constructor"; "hasOwnProperty"; "isPrototypeOf"; "propertyIsEnumerable";
   "toLocaleString"; "toString"; "valueOf"; "__proto__";
   "__defineGetter__"; "__defineSetter__"; "__lookupGetter__"; "__lookupSetter__"].

Definition inherited (name : string) : bool := bool_decide (name ∈ Object_prototype).

(** What a read [this.streams[id]] gives: the stream registered under
    [id]; else, for a name of [Object.prototype], the inherited value,
    which is not [undefined] and is not a stream (it has no [onMessage] and
    no [restart]); else [undefined]. *)
Inductive Property : Type :=
| Stream (stream : Ref)
| Inherited
| Undefined.

Definition get_property (streams : gmap string Ref) (id : string) : Property :=
  match streams !! id with
  | Some stream => Stream stream
  | None => if inherited id then Inherited else Undefined
  end.

(** [property !== undefined] *)
Definition defined (property : Property) : bool :=
  match property with
  | Undefined => false
  | _ => true
  end.

(** ** The methods of the socket *)

(** The client is given its socket (the constructor parameter [socket]) and
    knows it by its methods.  The methods of a stream and of the client that
    claim an order of their effects are written for any socket first
    ([start_with], [registerStream_with], [unregisterStream_with]); the
    socket of the world, whose calls are answered by its script, is
    [world_socket]. *)
Module Connection.
Record t : Type := mk {
  connect : M unit;
  send : OutboundMessage.t → M unit;
  disconnect : M unit
}.
End Connection.

Definition world_socket : Connection.t :=
  {| Connection.connect := socket_call Connect;
     Connection.send := λ message, socket_call (Send message);
     Connection.disconnect := socket_call Disconnect |}.

(** ** DefaultStream *)

(** [get onMessage()] *)
Definition onMessage (s : DefaultStream) : OnStreamMessage := onMessageHandler s.

(** [currentActiveMarker()] *)
Definition currentActiveMarker (r : Ref) : M (option StreamMarker) :=
  s <- deref r ;; ret (activeMarker s).

(** The closure [streamExists] handed to every stream by
    [registerStream]: [this.streams[streamId] !== undefined]. *)
Definition streamExists (streamId : string) : M bool :=
  get (λ w, defined (get_property (streams w) streamId)).

(** [start()] *)
Definition start_with (connection : Connection.t) (r : Ref) : M unit :=
  s <- deref r ;; Connection.send connection (registrationMessage s).

Definition start : Ref → M unit := start_with world_socket.

(** The message [restart] builds: a copy of the registration message whose
    [start_block] is overridden by the marker argument, else by the active
    marker, else kept. *)
Definition restartMessage (s : DefaultStream) (marker : option StreamMarker)
    : OutboundMessage.t :=
  let restartMessage := registrationMessage s in
  match marker with
  | Some marker => OutboundMessage.set_start_block (atBlockNum marker) restartMessage
  | None =>
      match activeMarker s with
      | Some activeMarker =>
          OutboundMessage.set_start_block (atBlockNum activeMarker) restartMessage
      | None => restartMessage
      end
  end.

Definition not_registered_message (id : string) : string :=
  "Trying to restart a stream '" +:+ id +:+
  "' that is not registered anymore or was never registered".

(** [restart(marker?)] up to and including the call [this.socket.send]. *)
Definition restart_begin (r : Ref) (marker : option StreamMarker) : M unit :=
  s <- deref r ;;
  registered <- streamExists (id s) ;;
  if negb registered
  then throw (DfuseClientError (not_registered_message (id s)) None)
  else socket_call (Send (restartMessage s marker)).

(** [restart(marker?)] after the [await]. *)
Definition restart_resume (r : Ref) : M unit :=
  s <- deref r ;;
  match onPostRestart s with
  | Some handler => emit (RestartCallback handler)
  | None => ret tt
  end.

Definition restart (r : Ref) (marker : option StreamMarker) : M unit :=
  restart_begin r marker ;; restart_resume r.

(** [mark(options)] *)
Definition mark (r : Ref) (options : StreamMarker) : M unit :=
  s <- deref r ;;
  modify (set_heap (λ h, <[r := {| id := id s; onPostRestart := onPostRestart s;
                                   activeMarker := Some options;
                                   registrationMessage := registrationMessage s;
                                   onMessageHandler := onMessageHandler s |}]> h)).

(** Assignment to the public field [onPostRestart]. *)
Definition set_onPostRestart (r : Ref) (handler : option OnStreamRestart) : M unit :=
  s <- deref r ;;
  modify (set_heap (λ h, <[r := {| id := id s; onPostRestart := handler;
                                   activeMarker := activeMarker s;
                                   registrationMessage := registrationMessage s;
                                   onMessageHandler := onMessageHandler s |}]> h)).

(** ** DefaultStreamClient *)

Definition duplicate_message (id : string) : string :=
  "A stream with id '" +:+ id +:+
  "' is already registered, cannot register another one with the same id".

Definition registration_failed_message (id : string) : string :=
  "Unable to correctly register stream '" +:+ id +:+ "'".

(** [setApiToken(apiToken)] *)
Definition setApiToken (apiToken : string) : M unit :=
  socket_call (SetApiToken apiToken).

(** The [catch] of [registerStream]. *)
Definition registration_failed (id : string) (error : Error) : M unit :=
  modify (set_streams (delete id)) ;;
  emit (RegistryDelete id) ;;
  throw (DfuseClientError (registration_failed_message id) (Some error)).

(** [registerStream(message, onMessage)].  The duplicate check
    [this.streams[id] !== undefined] comes after the connection and also
    finds the inherited names. *)
Definition registerStream_with (connection : Connection.t)
    (message : OutboundMessage.t) (onMessage : OnStreamMessage) : M Ref :=
  count <- get (λ w, length (Object_keys (streams w))) ;;
  (if decide (count = 0%nat) then Connection.connect connection else ret tt) ;;
  let id := OutboundMessage.req_id message in
  existing <- get (λ w, get_property (streams w) id) ;;
  if defined existing
  then throw (DfuseClientError (duplicate_message id) None)
  else
    stream <- new_DefaultStream id message onMessage ;;
    modify (set_streams (insert id stream)) ;;
    emit (RegistryInsert id) ;;
    try_catch (start_with connection stream) (registration_failed id) ;;
    ret stream.

Definition registerStream : OutboundMessage.t → OnStreamMessage → M Ref :=
  registerStream_with world_socket.

(** The end of [unregisterStream]: the socket is disconnected when no
    stream is left. *)
Definition disconnect_when_empty (connection : Connection.t) : M unit :=
  count <- get (λ w, length (Object_keys (streams w))) ;;
  if decide (count ≤ 0)%nat then Connection.disconnect connection else ret tt.

(** [unregisterStream(id)].  The guard [this.streams[id] === undefined]
    lets the inherited names through; [delete this.streams[id]] removes an
    own property and nothing else. *)
Definition unregisterStream_with (connection : Connection.t) (id : string) : M unit :=
  existing <- get (λ w, get_property (streams w) id) ;;
  if negb (defined existing) then ret tt
  else
    let message := unlistenMessage id in
    modify (set_streams (delete id)) ;;
    emit (RegistryDelete id) ;;
    Connection.send connection message ;;
    disconnect_when_empty connection.

Definition unregisterStream : string → M unit := unregisterStream_with world_socket.

(** [close()] of a stream: defers to [unregisterStream] when the socket
    reports itself connected. *)
Definition close (r : Ref) : M unit :=
  s <- deref r ;;
  connected <- get (λ w, Socket.isConnected (socket w)) ;;
  if connected then unregisterStream (id s) else ret tt.

(** [message.req_id || ""] *)
Definition routing_id (message : InboundMessage.t) : string :=
  match InboundMessage.req_id message with
  | Some req_id => if decide (req_id = "") then "" else req_id
  | None => ""
  end.

(** [handleMessage], the listener given to [socket.connect].  An
    inherited value is not [undefined], and calling its [onMessage], which
    it has not, is a [TypeError]. *)
Definition handleMessage (message : InboundMessage.t) : M unit :=
  stream <- get (λ w, get_property (streams w) (routing_id message)) ;;
  match stream with
  | Undefined => ret tt
  | Stream stream =>
      s <- deref stream ;;
      emit (MessageCallback (onMessage s) message)
  | Inherited => throw (TypeError "stream.onMessage is not a function")
  end.

(** The callback [handleReconnection] gives to [forEach]:
    [this.streams[streamId].restart()].  The restart runs up to its [send]
    and its promise is left alone. *)
Definition restart_each (streamId : string) : M (Ref * Result unit) :=
  stream <- get (λ w, get_property (streams w) streamId) ;;
  match stream with
  | Stream stream =>
      settled <- settle (restart_begin stream None) ;;
      ret (stream, settled)
  | Inherited => throw (TypeError "this.streams[streamId].restart is not a function")
  | Undefined => throw (TypeError "Cannot read property 'restart' of undefined")
  end.

(** What is left of a restart once its [send] has settled: nothing when it
    was rejected (nobody observes the rejection), the rest of [restart]
    otherwise. *)
Definition resume_each (promise : Ref * Result unit) : M unit :=
  let '(stream, settled) := promise in
  match settled with
  | Returned _ => settle (restart_resume stream) ;; ret tt
  | Thrown _ => ret tt
  end.

(** [handleReconnection], the [onReconnect] hook given to
    [socket.connect].  The loop runs every restart up to its [send]; the
    restarts are resumed, in the same order, once the loop is over. *)
Definition handleReconnection : M unit :=
  enabled <- get autoRestartStreamsOnReconnect ;;
  if negb enabled then ret tt
  else
    keys <- get (λ w, Object_keys (streams w)) ;;
    promises <- mapM keys restart_each ;;
    forEach promises resume_each.

(** [release()]: the error of a failing disconnect is caught and only
    reported to the debug log. *)
Definition release : M unit :=
  settle (socket_call Disconnect) ;; ret tt.

(** ** createStreamClient *)

Record StreamClientOptions : Type := {
  opt_socket : option Socket.t;
  opt_socketOptions : option string;
  opt_autoRestartStreamsOnReconnect : option bool
}.

(** [options = {}] *)
Definition no_options : StreamClientOptions :=
  {| opt_socket := None; opt_socketOptions := None;
     opt_autoRestartStreamsOnReconnect := None |}.

(** Modelled from the spec: [createSocket] of src/client/socket.ts is not
    part of the sources at hand; the Connection it builds starts
    disconnected. *)
Definition createSocket (wsUrl : string) (socketOptions : option string) : Socket.t :=
  {| Socket.isConnected := false; Socket.script := [] |}.

Definition createStreamClient (wsUrl : string) (options : StreamClientOptions) : World :=
  let socket := default (createSocket wsUrl (opt_socketOptions options)) (opt_socket options) in
  let autoRestartStreamsOnReconnect :=
    default true (opt_autoRestartStreamsOnReconnect options) in
  {| streams := ∅; socket := socket;
     autoRestartStreamsOnReconnect := autoRestartStreamsOnReconnect;
     heap := [] |}.

(** The environment choosing the replies of the socket to the next calls. *)
Definition with_script (script : list Reply) (w : World) : World :=
  set_socket (λ s, {| Socket.isConnected := Socket.isConnected s;
                      Socket.script := script |}) w.

(** * Vocabulary of the statements *)

(** ** Traces *)

(** Every occurrence of [b] in the trace comes after an occurrence of
    [a]. *)
Definition happens_before (a b : Event) (evs : list Event) : Prop :=
  ∀ l1 l2, evs = l1 ++ b :: l2 → a ∈ l1.

(** The message handed to [socket.send], whatever the reply. *)
Definition sent (e : Event) : option OutboundMessage.t :=
  match e with
  | SocketEvent (Send message) _ => Some message
  | _ => None
  end.

Definition sent_messages (evs : list Event) : list OutboundMessage.t := omap sent evs.

Definition failed_send_or_disconnect (e : Event) : bool :=
  match e with
  | SocketEvent (Send _) (Fails _) | SocketEvent Disconnect (Fails _) => true
  | _ => false
  end.

Definition sends_and_disconnects_succeed (evs : list Event) : Prop :=
  forallb (λ e, negb (failed_send_or_disconnect e)) evs = true.

(** ** Registry and heap *)

(** The stream object [registerStream] builds for a message. *)
Definition new_stream (message : OutboundMessage.t) (onMessage : OnStreamMessage)
    : DefaultStream :=
  DefaultStream_constructor (OutboundMessage.req_id message) message onMessage.

(** The stream object registered under an id. *)
Definition stream_at (w : World) (i : string) : option DefaultStream :=
  streams w !! i ≫= λ r, heap w !! r.

(** [message] is what a restart without argument of the stream registered
    under [i] sends. *)
Definition restart_of (w : World) (i : string) (message : OutboundMessage.t) : Prop :=
  ∃ s, stream_at w i = Some s
       ∧ message = restartMessage s None
       ∧ OutboundMessage.req_id message = i.

(** Every registered reference points to a stream object that carries the
    id it is registered under. *)
Definition wf (w : World) : Prop :=
  ∀ i r, streams w !! i = Some r →
    ∃ s, heap w !! r = Some s ∧ id s = i
         ∧ OutboundMessage.req_id (registrationMessage s) = i.

(** The Connection is connected whenever streams are registered. *)
Definition connected_if_streams (w : World) : Prop :=
  size (streams w) ≠ 0 → Socket.isConnected (socket w) = true.

(** The Connection is connected only when streams are registered. *)
Definition connected_only_if_streams (w : World) : Prop :=
  Socket.isConnected (socket w) = true → size (streams w) ≠ 0.

(** ** The outcomes of [registerStream] and [unregisterStream] *)

(** The first step of [registerStream] when it goes through: the socket
    is connected if no stream is registered, and left alone otherwise. *)
Inductive ConnectPhase (w : World) : World → list Event → Prop :=
| connect_needed :
    length (Object_keys (streams w)) = 0 →
    Socket.next_reply (socket w) = Succeeds →
    ConnectPhase w (set_socket (Socket.after Connect) w) [SocketEvent Connect Succeeds]
| connect_skipped :
    length (Object_keys (streams w)) ≠ 0 →
    ConnectPhase w w [].

(** The five ways a call to [registerStream] can go. *)
Inductive RegisterOutcome (w : World) (message : OutboundMessage.t)
    (onMessage : OnStreamMessage) : Run Ref → Prop :=
| register_connect_failed e :
    length (Object_keys (streams w)) = 0 →
    Socket.next_reply (socket w) = Fails e →
    RegisterOutcome w message onMessage
      {| result := Thrown e; world := set_socket (Socket.after Connect) w;
         events := [SocketEvent Connect (Fails e)] |}
| register_duplicate r :
    streams w !! OutboundMessage.req_id message = Some r →
    RegisterOutcome w message onMessage
      {| result := Thrown (DfuseClientError
                             (duplicate_message (OutboundMessage.req_id message)) None);
         world := w; events := [] |}
| register_sent w1 pre :
    ConnectPhase w w1 pre →
    streams w !! OutboundMessage.req_id message = None →
    Socket.next_reply (socket w1) = Succeeds →
    inherited (OutboundMessage.req_id message) = false →
    RegisterOutcome w message onMessage
      {| result := Returned (length (heap w));
         world :=
           set_socket (Socket.after (Send message))
             (set_streams (insert (OutboundMessage.req_id message) (length (heap w)))
                (set_heap (λ h, h ++ [new_stream message onMessage]) w1));
         events := pre ++ [RegistryInsert (OutboundMessage.req_id message);
                           SocketEvent (Send message) Succeeds] |}
| register_send_failed w1 pre e :
    ConnectPhase w w1 pre →
    streams w !! OutboundMessage.req_id message = None →
    Socket.next_reply (socket w1) = Fails e →
    inherited (OutboundMessage.req_id message) = false →
    RegisterOutcome w message onMessage
      {| result := Thrown (DfuseClientError
                             (registration_failed_message (OutboundMessage.req_id message))
                             (Some e));
         world :=
           set_streams (delete (OutboundMessage.req_id message))
             (set_socket (Socket.after (Send message))
                (set_streams (insert (OutboundMessage.req_id message) (length (heap w)))
                   (set_heap (λ h, h ++ [new_stream message onMessage]) w1)));
         events := pre ++ [RegistryInsert (OutboundMessage.req_id message);
                           SocketEvent (Send message) (Fails e);
                           RegistryDelete (OutboundMessage.req_id message)] |}
| register_inherited w1 pre :
    ConnectPhase w w1 pre →
    streams w !! OutboundMessage.req_id message = None →
    inherited (OutboundMessage.req_id message) = true →
    RegisterOutcome w message onMessage
      {| result := Thrown (DfuseClientError
                             (duplicate_message (OutboundMessage.req_id message)) None);
         world := w1; events := pre |}.

(** The four ways a call to [unregisterStream] can go. *)
Inductive UnregisterOutcome (w : World) (i : string) : Run unit → Prop :=
| unregister_unknown :
    get_property (streams w) i = Undefined →
    UnregisterOutcome w i {| result := Returned tt; world := w; events := [] |}
| unregister_send_failed e :
    get_property (streams w) i ≠ Undefined →
    Socket.next_reply (socket w) = Fails e →
    UnregisterOutcome w i
      {| result := Thrown e;
         world := set_socket (Socket.after (Send (unlistenMessage i)))
                    (set_streams (delete i) w);
         events := [RegistryDelete i;
                    SocketEvent (Send (unlistenMessage i)) (Fails e)] |}
| unregister_others_left :
    get_property (streams w) i ≠ Undefined →
    Socket.next_reply (socket w) = Succeeds →
    length (Object_keys (delete i (streams w))) ≠ 0 →
    UnregisterOutcome w i
      {| result := Returned tt;
         world := set_socket (Socket.after (Send (unlistenMessage i)))
                    (set_streams (delete i) w);
         events := [RegistryDelete i;
                    SocketEvent (Send (unlistenMessage i)) Succeeds] |}
| unregister_last reply :
    get_property (streams w) i ≠ Undefined →
    Socket.next_reply (socket w) = Succeeds →
    length (Object_keys (delete i (streams w))) = 0 →
    reply = Socket.next_reply (Socket.after (Send (unlistenMessage i)) (socket w)) →
    UnregisterOutcome w i
      {| result := match reply with Succeeds => Returned tt | Fails e => Thrown e end;
         world := set_socket (Socket.after Disconnect)
                    (set_socket (Socket.after (Send (unlistenMessage i)))
                       (set_streams (delete i) w));
         events := [RegistryDelete i;
                    SocketEvent (Send (unlistenMessage i)) Succeeds;
                    SocketEvent Disconnect reply] |}.

(** ** Sequences of calls *)

Inductive Call : Type :=
| RegisterStream (message : OutboundMessage.t) (onMessage : OnStreamMessage)
| UnregisterStream (id : string).

Record Tally : Type := {
  registered : nat;
  unregistered : nat
}.

(** A caller that awaits every call before it makes the next one, catches
    what the call throws, and counts the registrations that succeeded and
    the unregistrations whose id was a key of the registry. *)
Fixpoint run_calls (calls : list Call) : M Tally :=
  match calls with
  | [] => ret {| registered := 0; unregistered := 0 |}
  | RegisterStream message onMessage :: calls =>
      outcome <- settle (registerStream message onMessage) ;;
      tally <- run_calls calls ;;
      ret match outcome with
          | Returned _ => {| registered := S (registered tally);
                             unregistered := unregistered tally |}
          | Thrown _ => tally
          end
  | UnregisterStream id :: calls =>
      present <- get (λ w, bool_decide (is_Some (streams w !! id))) ;;
      settle (unregisterStream id) ;;
      tally <- run_calls calls ;;
      ret (if present : bool
           then {| registered := registered tally;
                   unregistered := S (unregistered tally) |}
           else tally)
  end.

(** The ids the registrations of a sequence ask for. *)
Definition registered_ids (calls : list Call) : list string :=
  omap (λ call, match call with
                | RegisterStream message _ => Some (OutboundMessage.req_id message)
                | UnregisterStream _ => None
                end) calls.

(** ** Worked inputs *)

Definition chain_1 : OutboundMessage.t :=
  {| OutboundMessage.type := "get_table_rows"; OutboundMessage.req_id := "chain.1";
     OutboundMessage.start_block := Some 0%Z;
     OutboundMessage.data := "eosio.token/accounts" |}.

Definition chain_2 : OutboundMessage.t :=
  {| OutboundMessage.type := "get_action_traces"; OutboundMessage.req_id := "chain.2";
     OutboundMessage.start_block := None;
     OutboundMessage.data := "eosio.token/transfer" |}.

Definition fresh_client : World :=
  createStreamClient "wss://mainnet.eos.dfuse.io/v1/stream" no_options.

Definition one_stream : World := world (registerStream chain_1 "onChain1" fresh_client).

Definition two_streams : World := world (registerStream chain_2 "onChain2" one_stream).

Definition socket_closed : Error := TransportError "socket closed".

Definition progress_chain_1 : InboundMessage.t :=
  {| InboundMessage.type := "progress"; InboundMessage.req_id := Some "chain.1";
     InboundMessage.data := "block_num: 5" |}.

Definition progress_chain_9 : InboundMessage.t :=
  {| InboundMessage.type := "progress"; InboundMessage.req_id := Some "chain.9";
     InboundMessage.data := "block_num: 5" |}.

(** Another subscription under the id of [chain_1]. *)
Definition chain_1_again : OutboundMessage.t :=
  {| OutboundMessage.type := "get_table_rows"; OutboundMessage.req_id := "chain.1";
     OutboundMessage.start_block := Some 100%Z;
     OutboundMessage.data := "eosio/global" |}.

(** The id [chain.1] registered, unregistered, and registered again: the
    first handle, reference [0], is stale, and the registry holds the
    second stream, reference [1]. *)
Definition reused_id : World :=
  world ((registerStream chain_1 "onChain1" ;;
          unregisterStream "chain.1" ;;
          registerStream chain_1_again "onChain1Again") fresh_client).

(** An inbound message that carries the name of a method of every
    object. *)
Definition progress_toString : InboundMessage.t :=
  {| InboundMessage.type := "progress"; InboundMessage.req_id := Some "toString";
     InboundMessage.data := "block_num: 5" |}.

(** ** Sockets that are looked at in the order of effects *)

(** The first step of [registerStream_with] when it goes through: the
    socket is asked to connect when no stream is registered, and what
    follows starts in the world [connect] returned in. *)
Inductive Connected (connection : Connection.t) (w : World) : World → list Event → Prop :=
| connected_first w1 pre :
    length (Object_keys (streams w)) = 0 →
    Connection.connect connection w =
      {| result := Returned tt; world := w1; events := pre |} →
    Connected connection w w1 pre
| connected_already :
    length (Object_keys (streams w)) ≠ 0 →
    Connected connection w w [].

(** A socket on which the server answers while [send] is running: the
    inbound messages are given to [handleMessage] before [send] returns. *)
Definition answering (inbound : list InboundMessage.t) : Connection.t :=
  {| Connection.connect := socket_call Connect;
     Connection.send := λ message,
       socket_call (Send message) ;; forEach inbound handleMessage;
     Connection.disconnect := socket_call Disconnect |}.

(** * The HTTP client

    A shallow embedding of [DefaultHttpClient], [createHttpClient] and
    [inferFetch] (src/client/http-client.ts, the first document of
    src/src/client/http-client.ts).

    Conventions of the embedding.
    - A string is the sequence of the bytes of its UTF-8 encoding, a lone
      surrogate (a code unit [D800] to [DFFF] outside a pair) being
      written as the three bytes [ED A0..BF 80..BF] that UTF-8 forbids.
    - [HttpQueryParameters] is the list of its entries in the order of
      [Object.keys]; the values are JavaScript values of any type
      ([ParameterValue]).
    - [HttpHeaders] and the [headers] given to [fetch] are maps from header
      name to value.
    - The values that go through the client untouched (request bodies,
      decoded responses, the data of an API error) are known by a name.
    - A call runs to completion; the calls made to [fetch] are collected
      next to the outcome of the call. *)
Module Http.

Import Stdlib.Strings.Ascii.

(** A JavaScript value the client hands on without looking into it. *)
Inductive Value : Type :=
| js_value (name : string).

(** The errors of src/types/error.ts, which is not among the sources:
    [DfuseClientError] and [DfuseApiError] are the two classes the client
    builds, both extending [DfuseError]; [ForeignError] is any other thrown
    value (a network failure of [fetch], a [SyntaxError] of [JSON.parse]). *)
#[local] Set Warnings "-register-all".
Inductive Error : Type :=
| DfuseClientError (message : string) (cause : option Error)
| DfuseApiError (data : Value)
| ForeignError (description : string).
#[local] Set Warnings "register-all".

(** [error instanceof DfuseError] *)
Definition instanceof_DfuseError (e : Error) : bool :=
  match e with
  | DfuseClientError _ _ | DfuseApiError _ => true
  | ForeignError _ => false
  end.

(** How a promise settles. *)
Inductive Outcome (A : Type) : Type :=
| Resolved (a : A)
| Rejected (e : Error).
Arguments Resolved {A} a.
Arguments Rejected {A} e.

(** The fields of an [HttpResponse] the client uses: [ok], and how
    [json()] and [text()] settle. *)
Record HttpResponse : Type := {
  ok : bool;
  json : Outcome Value;
  text : Outcome string
}.

(** The second argument of [fetch]. *)
Record RequestInit : Type := {
  headers : gmap string string;
  method : string;
  body : option string
}.

Definition Fetch : Type := string → RequestInit → Outcome HttpResponse.

Record FetchCall : Type := {
  fetched_url : string;
  fetched_init : RequestInit
}.

Record Run (A : Type) : Type := {
  outcome : Outcome A;
  fetched : list FetchCall
}.
Arguments outcome {A} _.
Arguments fetched {A} _.

(** Sequencing of what may throw. *)
Definition and_then {A B} (x : Outcome A) (k : A → Outcome B) : Outcome B :=
  match x with
  | Resolved a => k a
  | Rejected e => Rejected e
  end.

(** ** [encodeURIComponent] *)

(** The second byte of a lone surrogate. *)
Definition surrogate_byte (c : Ascii.ascii) : bool :=
  let n := Ascii.nat_of_ascii c in
  Nat.leb 160 n && Nat.leb n 191.

(** [String.prototype.isWellFormed]: the string has no lone surrogate. *)
Fixpoint isWellFormed (s : string) : bool :=
  match s with
  | "" => true
  | String c s' =>
      match s' with
      | String d _ => negb (bool_decide (c = "237"%char) && surrogate_byte d)
      | "" => true
      end && isWellFormed s'
  end.

Definition URIError : Error := ForeignError "URIError: URI malformed".

(** The characters [encodeURIComponent] leaves alone: letters, digits and
    [- _ . ! ~ * ' ( )]. *)
Definition unreserved (c : Ascii.ascii) : bool :=
  let n := Ascii.nat_of_ascii c in
  (Nat.leb 65 n && Nat.leb n 90) || (Nat.leb 97 n && Nat.leb n 122)
  || (Nat.leb 48 n && Nat.leb n 57)
  || bool_decide (c ∈ ["-"; "_"; "."; "!"; "~"; "*"; "'"; "("; ")"]%char).

Definition hex_digit (n : nat) : Ascii.ascii :=
  nth n ["0"; "1"; "2"; "3"; "4"; "5"; "6"; "7"; "8"; "9";
         "A"; "B"; "C"; "D"; "E"; "F"]%char "0"%char.

(** Every other byte becomes [%XX]. *)
Definition escape (c : Ascii.ascii) : string :=
  let n := Ascii.nat_of_ascii c in
  String "%" (String (hex_digit (n / 16)) (String (hex_digit (n mod 16)) "")).

(** The operation [Encode] of ECMAScript on a string without lone
    surrogate. *)
Fixpoint Encode (s : string) : string :=
  match s with
  | "" => ""
  | String c s' =>
      (if unreserved c then String c "" else escape c) +:+ Encode s'
  end.

(** [encodeURIComponent(s)] for a string [s]: a [URIError] when [s] has a
    lone surrogate. *)
Definition encodeURIComponent (s : string) : Outcome string :=
  if isWellFormed s then Resolved (Encode s) else Rejected URIError.

(** ** Values of any type *)

(** The values of query parameters, typed [any].  A number is known by the
    string its conversion gives ([10] by ["10"]); an object, or a symbol,
    by how its conversion to a string ends. *)
Inductive ParameterValue : Type :=
| JsUndefined
| JsNull
| JsBoolean (b : bool)
| JsNumber (text : string)
| JsString (text : string)
| JsObject (toString : Outcome string).

(** The conversion [ToString] that [encodeURIComponent] applies to its
    argument. *)
Definition ToString (value : ParameterValue) : Outcome string :=
  match value with
  | JsUndefined => Resolved "undefined"
  | JsNull => Resolved "null"
  | JsBoolean true => Resolved "true"
  | JsBoolean false => Resolved "false"
  | JsNumber text => Resolved text
  | JsString text => Resolved text
  | JsObject toString => toString
  end.

(** [Array.prototype.join] *)
Fixpoint join (separator : string) (entries : list string) : string :=
  match entries with
  | [] => ""
  | [entry] => entry
  | entry :: entries => entry +:+ separator +:+ join separator entries
  end.

(** ** DefaultHttpClient *)

Abbreviation HttpQueryParameters := (list (string * ParameterValue)) (only parsing).
Abbreviation HttpHeaders := (gmap string string) (only parsing).

Record DefaultHttpClient : Type := {
  authUrl : string;
  apiUrl : string;
  fetch : Fetch
}.

(** [encodeURIComponent(key) + "=" + encodeURIComponent(value)] *)
Definition queryParams_entry (key : string) (value : ParameterValue) : Outcome string :=
  and_then (encodeURIComponent key) (λ key,
  and_then (ToString value) (λ text,
  and_then (encodeURIComponent text) (λ value,
  Resolved (key +:+ "=" +:+ value)))).

(** The array [entries] built by the loop of [queryParams]; the loop ends
    at the first entry that throws. *)
Fixpoint queryParams_entries (params : HttpQueryParameters) : Outcome (list string) :=
  match params with
  | [] => Resolved []
  | (key, value) :: params =>
      match value with
      | JsUndefined => queryParams_entries params
      | _ =>
          and_then (queryParams_entry key value) (λ entry,
          and_then (queryParams_entries params) (λ entries,
          Resolved (entry :: entries)))
      end
  end.

(** [queryParams(params)] *)
Definition queryParams (params : HttpQueryParameters) : Outcome string :=
  and_then (queryParams_entries params) (λ entries, Resolved (join "&" entries)).

(** [bodyToResponse(response)] *)
Definition bodyToResponse (response : HttpResponse) : Outcome Value :=
  match json response with
  | Resolved value => Resolved value
  | Rejected error =>
      Rejected (DfuseClientError "The returned body shall have been a valid JSON object"
                  (Some error))
  end.

Section Runtime.

(** [JSON.stringify(body)]: a string, [undefined], or an exception. *)
Variable JSON_stringify : Value → Outcome (option string).

(** The evaluation of [new DfuseApiError(JSON.parse(body))]: the data of
    the error that is built, or what [JSON.parse] or the constructor
    throws. *)
Variable api_error_data : string → Outcome Value.

(** [bodyToApiError(response)]: the promise is rejected when [text()] is,
    and resolves to an error object otherwise. *)
Definition bodyToApiError (response : HttpResponse) : Outcome Error :=
  match text response with
  | Rejected error => Rejected error
  | Resolved body =>
      match api_error_data body with
      | Resolved data => Resolved (DfuseApiError data)
      | Rejected error =>
          Resolved (DfuseClientError
                      ("The returned body shall have been a valid JSON object, got '"
                       +:+ body +:+ "'")
                      (Some error))
      end
  end.

(** The [try] block of [request], once [fetch] has been called. *)
Definition handle_response (fetched : Outcome HttpResponse) : Outcome Value :=
  match fetched with
  | Rejected error => Rejected error
  | Resolved response =>
      if negb (ok response)
      then match bodyToApiError response with
           | Resolved error => Rejected error
           | Rejected error => Rejected error
           end
      else bodyToResponse response
  end.

(** The [catch] block of [request]. *)
Definition rethrow (attempt : Outcome Value) : Outcome Value :=
  match attempt with
  | Resolved value => Resolved value
  | Rejected error =>
      if instanceof_DfuseError error
      then Rejected error
      else Rejected (DfuseClientError "Unable to perform HTTP request correctly"
                       (Some error))
  end.

(** The url of the request: [url += "?" + this.queryParams(params)] when
    there are parameters. *)
Definition url_with_query (url : string) (params : option HttpQueryParameters)
    : Outcome string :=
  match params with
  | Some params =>
      if Nat.ltb 0 (length params.*1)
      then and_then (queryParams params) (λ query, Resolved (url +:+ "?" +:+ query))
      else Resolved url
  | None => Resolved url
  end.

(** [request(apiToken, url, method, params, body, headers)].  The query
    string and the JSON body are built before the [try] block: what they
    throw leaves [request] as it is. *)
Definition request (client : DefaultHttpClient) (apiToken : option string)
    (url method : string) (params : option HttpQueryParameters)
    (body : option Value) (headers : option HttpHeaders) : Run Value :=
  match url_with_query url params with
  | Rejected error => {| outcome := Rejected error; fetched := [] |}
  | Resolved url =>
  let defaultHeaders : HttpHeaders :=
    match apiToken with
    | Some apiToken => {[ "Authorization" := "Bearer " +:+ apiToken ]}
    | None => ∅
    end in
  let userHeaders := default ∅ headers in
  let mergedHeaders := userHeaders ∪ defaultHeaders in
  let jsonBody :=
    match body with
    | Some body => JSON_stringify body
    | None => Resolved None
    end in
  match jsonBody with
  | Rejected error => {| outcome := Rejected error; fetched := [] |}
  | Resolved jsonBody =>
      let init := {| headers := mergedHeaders; method := method; body := jsonBody |} in
      {| outcome := rethrow (handle_response (fetch client url init));
         fetched := [ {| fetched_url := url; fetched_init := init |} ] |}
  end
  end.

(** [authRequest(path, method, params, body, headers)] *)
Definition authRequest (client : DefaultHttpClient) (path method : string)
    (params : option HttpQueryParameters) (body : option Value)
    (headers : option HttpHeaders) : Run Value :=
  request client None (authUrl client +:+ path) method params body headers.

(** [apiRequest(apiToken, path, method, params, body, headers)] *)
Definition apiRequest (client : DefaultHttpClient) (apiToken path method : string)
    (params : option HttpQueryParameters) (body : option Value)
    (headers : option HttpHeaders) : Run Value :=
  request client (Some apiToken) (apiUrl client +:+ path) method params body headers.

End Runtime.

(** ** createHttpClient *)

(** What [inferFetch] looks at in the global scope: [window] and [global],
    when they are defined, and their [fetch], when it is not [null] or
    [undefined].  A function bound to its global object is the function. *)
Record Globals : Type := {
  window : option (option Fetch);
  global : option (option Fetch)
}.

Definition newline : string := String "010"%char "".

Definition no_fetch_message : string :=
  join newline
    ["You did not provide a `fetch` option and we were not able to infer one from the global scope.";
     "";
     "You are most likely in a Node.js environment where a global `fetch` is not available by defaut.";
     "To resolve the issue, either pass a compatible `fetch` option or globally defined a `global.fetch`";
     "variable pointing to a compatible `fetch` method.";
     "";
     "We invite you to read our documentation to learn more about this problem.";
     "";
     "See https://github.com/dfuse-io/client-js#nodejs"].

(** [inferFetch(fetch)] *)
Definition inferFetch (globals : Globals) (fetch : option Fetch) : Outcome Fetch :=
  match fetch with
  | Some fetch => Resolved fetch
  | None =>
      match window globals with
      | Some (Some fetch) => Resolved fetch
      | _ =>
          match global globals with
          | Some (Some fetch) => Resolved fetch
          | _ => Rejected (DfuseClientError no_fetch_message None)
          end
      end
  end.

(** [createHttpClient(authUrl, apiUrl, options)], [options.fetch] being the
    one option. *)
Definition createHttpClient (globals : Globals) (authUrl apiUrl : string)
    (options_fetch : option Fetch) : Outcome DefaultHttpClient :=
  match inferFetch globals options_fetch with
  | Resolved fetch => Resolved {| authUrl := authUrl; apiUrl := apiUrl; fetch := fetch |}
  | Rejected error => Rejected error
  end.

End Http.

(** * Vocabulary of the further properties *)

(** ** Frames of the stream client *)

(** [w'] differs from [w] in its socket at most. *)
Definition same_client (w w' : World) : Prop :=
  streams w' = streams w
  ∧ heap w' = heap w
  ∧ autoRestartStreamsOnReconnect w' = autoRestartStreamsOnReconnect w.

(** The events of a restart: a [send], or the call of an [onPostRestart]
    hook. *)
Definition restart_event (e : Event) : Prop :=
  match e with
  | SocketEvent (Send _) _ | RestartCallback _ => True
  | _ => False
  end.

Definition is_disconnect (e : Event) : Prop :=
  match e with
  | SocketEvent Disconnect _ => True
  | _ => False
  end.

Definition is_connect (e : Event) : Prop :=
  match e with
  | SocketEvent Connect _ => True
  | _ => False
  end.

(** [stream.onPostRestart = handler] done by the caller on its handle. *)
Definition with_onPostRestart (handler : OnStreamRestart) (s : DefaultStream)
    : DefaultStream :=
  {| id := id s; onPostRestart := Some handler; activeMarker := activeMarker s;
     registrationMessage := registrationMessage s;
     onMessageHandler := onMessageHandler s |}.

(** The stream object after [mark(options)]. *)
Definition marked (options : StreamMarker) (s : DefaultStream) : DefaultStream :=
  {| id := id s; onPostRestart := onPostRestart s; activeMarker := Some options;
     registrationMessage := registrationMessage s;
     onMessageHandler := onMessageHandler s |}.

(** ** Further worked inputs *)

Definition anonymous : OutboundMessage.t :=
  {| OutboundMessage.type := "get_head_info"; OutboundMessage.req_id := "";
     OutboundMessage.start_block := None; OutboundMessage.data := "" |}.

Definition anonymous_stream : World := world (registerStream anonymous "onHead" fresh_client).

Definition heartbeat : InboundMessage.t :=
  {| InboundMessage.type := "ping"; InboundMessage.req_id := None;
     InboundMessage.data := "" |}.

Definition hooked_stream : World :=
  world (set_onPostRestart 0 (Some "onRestarted") one_stream).

(** A piece of client code that changes nothing but the socket and whose
    events are those of restarts. *)
Definition restarts_only {A} (m : M A) : Prop :=
  ∀ w, same_client w (world (m w)) ∧ Forall restart_event (events (m w)).

(** ** Query strings *)

Import Stdlib.Strings.Ascii.

(** The entries of the parameters whose value is not [undefined], each
    value as its conversion to a string. *)
Definition converted_entries (params : Http.HttpQueryParameters)
    : list (string * Http.Outcome string) :=
  omap (λ entry, match entry.2 with
                 | Http.JsUndefined => None
                 | value => Some (entry.1, Http.ToString value)
                 end) params.

(** Every character of the string passes the test. *)
Fixpoint every (test : ascii → bool) (s : string) : bool :=
  match s with
  | EmptyString => true
  | String c s' => test c && every test s'
  end.

(** The characters of a query string: the ones [encodeURIComponent]
    leaves alone, [%], and the separators [=] and [&]. *)
Definition query_character (c : ascii) : bool :=
  Http.unreserved c
  || bool_decide (c ∈ ["%"; "="; "&"]%char).

(** The value of a hexadecimal digit. *)
Definition hex_value (c : ascii) : nat :=
  let n := nat_of_ascii c in
  if Nat.leb 65 n then n - 55 else n - 48.

(** Reading a percent-encoded string back: [%XX] is the byte of value
    [XX], any other character is itself. *)
Fixpoint percent_decode (s : string) : string :=
  match s with
  | EmptyString => EmptyString
  | String c s' =>
      if decide (c = "%"%char)
      then match s' with
           | String high (String low s'') =>
               String (ascii_of_nat (16 * hex_value high + hex_value low))
                 (percent_decode s'')
           | _ => s
           end
      else String c (percent_decode s')
  end.

(** The text of an entry of a query string. *)
Definition query_entry (entry : string * string) : string :=
  Http.Encode entry.1 +:+ "=" +:+ Http.Encode entry.2.

(** The conversions a list of keys and texts stands for. *)
Definition resolved_entries (texts : list (string * string))
    : list (string * Http.Outcome string) :=
  (λ entry, (entry.1, Http.Resolved entry.2)) <$> texts.

(** A string that ends in a lone surrogate, the code unit [D800]. *)
Definition lone_surrogate : string :=
  String "a"%char (String "237"%char (String "160"%char (String "128"%char ""))).

(** ** Worked inputs of the HTTP client *)

(** A [JSON.stringify] that throws on the value named [cyclic]. *)
Definition stringify (body : Http.Value) : Http.Outcome (option string) :=
  match body with
  | Http.js_value name =>
      if decide (name = "cyclic")
      then Http.Rejected (Http.ForeignError "TypeError: cyclic object value")
      else Http.Resolved (Some name)
  end.

(** An evaluation of [new DfuseApiError(JSON.parse(body))] that accepts
    the bodies that start with a brace. *)
Definition parse_error (body : string) : Http.Outcome Http.Value :=
  match body with
  | String c _ =>
      if decide (c = "{"%char)
      then Http.Resolved (Http.js_value body)
      else Http.Rejected (Http.ForeignError "SyntaxError: Unexpected token")
  | EmptyString => Http.Rejected (Http.ForeignError "SyntaxError: Unexpected end of JSON input")
  end.

Definition not_found : Http.HttpResponse :=
  {| Http.ok := false;
     Http.json := Http.Rejected (Http.ForeignError "SyntaxError: Unexpected token");
     Http.text := Http.Resolved "Not Found" |}.

Definition table_rows : Http.HttpResponse :=
  {| Http.ok := true;
     Http.json := Http.Resolved (Http.js_value "rows");
     Http.text := Http.Resolved "rows" |}.

(** A server that knows one path. *)
Definition server : Http.Fetch :=
  λ url init,
    if decide (url = "https://mainnet.eos.dfuse.io/v0/state/table?account=eosio")
    then Http.Resolved table_rows
    else Http.Resolved not_found.

Definition offline : Http.Fetch :=
  λ url init, Http.Rejected (Http.ForeignError "TypeError: Failed to fetch").

Definition http_client (fetch : Http.Fetch) : Http.DefaultHttpClient :=
  {| Http.authUrl := "https://auth.dfuse.io"; Http.apiUrl := "https://mainnet.eos.dfuse.io";
     Http.fetch := fetch |}.

(** * Properties *)

(** ** The keys of the registry *)

Lemma length_Object_keys (m : gmap string Ref) : length (Object_keys m) = size m.
Proof. unfold Object_keys. by rewrite length_fmap, length_map_to_list. Qed.

Lemma Object_keys_nonempty (m : gmap string Ref) (i : string) (r : Ref) :
  m !! i = Some r → length (Object_keys m) ≠ 0.
Proof.
  intros Hi. rewrite length_Object_keys.
  apply map_size_ne_0_lookup. eauto.
Qed.

Lemma NoDup_Object_keys (m : gmap string Ref) : NoDup (Object_keys m).
Proof. apply NoDup_fst_map_to_list. Qed.

Lemma elem_of_Object_keys (m : gmap string Ref) (i : string) :
  i ∈ Object_keys m ↔ is_Some (m !! i).
Proof.
  unfold Object_keys. rewrite list_elem_of_fmap. split.
  - intros ([i' r] & -> & Hin). apply elem_of_map_to_list in Hin. by exists r.
  - intros [r Hr]. exists (i, r). split; [done|]. by apply elem_of_map_to_list.
Qed.

(** ** What the operations compute *)

Lemma deref_new (h : list DefaultStream) (s : DefaultStream) :
  (h ++ [s]) !! length h = Some s.
Proof. by apply list_lookup_middle. Qed.

Lemma prepend_nil {A} (r : Run A) : prepend [] r = r.
Proof. by destruct r. Qed.

(** ** Reading the registry *)

Lemma get_property_Stream (m : gmap string Ref) (i : string) (r : Ref) :
  get_property m i = Stream r ↔ m !! i = Some r.
Proof.
  unfold get_property. destruct (m !! i); [|destruct (inherited i)];
    split; intros; by simplify_eq.
Qed.

Lemma get_property_Undefined (m : gmap string Ref) (i : string) :
  get_property m i = Undefined ↔ m !! i = None ∧ inherited i = false.
Proof.
  unfold get_property. destruct (m !! i); [|destruct (inherited i)];
    split; try done; by intros [? ?].
Qed.

Lemma get_property_Inherited (m : gmap string Ref) (i : string) :
  get_property m i = Inherited ↔ m !! i = None ∧ inherited i = true.
Proof.
  unfold get_property. destruct (m !! i); [|destruct (inherited i)];
    split; try done; by intros [? ?].
Qed.

Lemma defined_get_property (m : gmap string Ref) (i : string) :
  defined (get_property m i) = true ↔ get_property m i ≠ Undefined.
Proof. by destruct (get_property m i). Qed.

(** Deleting an id takes one entry away when the id is a key of the
    registry, and none otherwise. *)
Lemma size_delete (m : gmap string Ref) (i : string) :
  size (delete i m) + (if bool_decide (is_Some (m !! i)) then 1 else 0) = size m.
Proof.
  destruct (m !! i) as [r|] eqn:Hi.
  - rewrite bool_decide_eq_true_2 by eauto.
    rewrite map_size_delete_Some by eauto.
    pose proof (map_size_ne_0_lookup_2 m i (mk_is_Some _ _ Hi)). lia.
  - rewrite bool_decide_eq_false_2 by (by intros [? ?]).
    rewrite delete_id by done. lia.
Qed.

Ltac run_js :=
  unfold registerStream, unregisterStream, registerStream_with, unregisterStream_with,
    disconnect_when_empty, registration_failed, start, start_with, world_socket,
    new_DefaultStream, deref,
    bind, prepend, try_catch, settle, get, modify, emit, ret, throw, socket_call;
  simpl.

Lemma registerStream_outcome (w : World) (message : OutboundMessage.t)
    (onMessage : OnStreamMessage) :
  RegisterOutcome w message onMessage (registerStream message onMessage w).
Proof.
  run_js. unfold get_property.
  destruct (decide _) as [Hlen|Hlen]; simpl.
  - assert (streams w !! OutboundMessage.req_id message = None) as Hi.
    { destruct (streams w !! _) eqn:Hi; [|done].
      by apply Object_keys_nonempty in Hi. }
    destruct (Socket.next_reply (socket w)) eqn:Hconn; simpl.
    + rewrite Hi. destruct (inherited _) eqn:Hname; simpl.
      { by apply (register_inherited w message onMessage _ [SocketEvent Connect Succeeds]);
          [apply connect_needed|..]. }
      rewrite deref_new. simpl.
      destruct (Socket.next_reply (Socket.after Connect (socket w))) eqn:Hsend; simpl.
      * by apply (register_sent w message onMessage _ [SocketEvent Connect Succeeds]);
          [apply connect_needed|..].
      * by apply (register_send_failed w message onMessage _
                    [SocketEvent Connect Succeeds]); [apply connect_needed|..].
    + by apply register_connect_failed.
  - destruct (streams w !! OutboundMessage.req_id message) eqn:Hi; simpl.
    + by eapply register_duplicate.
    + destruct (inherited _) eqn:Hname; simpl.
      { by apply (register_inherited w message onMessage w []);
          [apply connect_skipped|..]. }
      rewrite deref_new. simpl.
      destruct (Socket.next_reply (socket w)) eqn:Hsend; simpl.
      * by apply (register_sent w message onMessage w []); [apply connect_skipped|..].
      * by apply (register_send_failed w message onMessage w []);
          [apply connect_skipped|..].
Qed.

Lemma unregisterStream_outcome (w : World) (i : string) :
  UnregisterOutcome w i (unregisterStream i w).
Proof.
  run_js.
  destruct (get_property (streams w) i) eqn:Hi; simpl.
  1,2: destruct (Socket.next_reply (socket w)) eqn:Hsend; simpl;
    [destruct (decide _) as [Hlen|Hlen]; simpl;
     [eapply unregister_last; eauto; [congruence|lia]
     |eapply unregister_others_left; eauto; [congruence|lia]]
    |eapply unregister_send_failed; [congruence|done]].
  by apply unregister_unknown.
Qed.

Lemma restartMessage_fields (s : DefaultStream) (marker : option StreamMarker) :
  let original := registrationMessage s in
  let message := restartMessage s marker in
  OutboundMessage.type message = OutboundMessage.type original
  ∧ OutboundMessage.req_id message = OutboundMessage.req_id original
  ∧ OutboundMessage.data message = OutboundMessage.data original
  ∧ OutboundMessage.start_block message =
      match marker with
      | Some marker => Some (atBlockNum marker)
      | None =>
          match activeMarker s with
          | Some stored => Some (atBlockNum stored)
          | None => OutboundMessage.start_block original
          end
      end.
Proof. unfold restartMessage. by destruct marker, (activeMarker s). Qed.

Lemma restart_begin_registered (w : World) (r : Ref) (s : DefaultStream)
    (marker : option StreamMarker) :
  heap w !! r = Some s →
  is_Some (streams w !! id s) →
  restart_begin r marker w =
    {| result := match Socket.next_reply (socket w) with
                 | Succeeds => Returned tt
                 | Fails e => Thrown e
                 end;
       world := set_socket (Socket.after (Send (restartMessage s marker))) w;
       events := [SocketEvent (Send (restartMessage s marker))
                    (Socket.next_reply (socket w))] |}.
Proof.
  intros Hs [r' Hi].
  unfold restart_begin, bind, deref, streamExists, get, prepend, socket_call. simpl.
  rewrite Hs. simpl.
  apply get_property_Stream in Hi. rewrite Hi.
  reflexivity.
Qed.

Lemma restart_resume_run (w : World) (r : Ref) (s : DefaultStream) :
  heap w !! r = Some s →
  restart_resume r w =
    {| result := Returned tt; world := w;
       events := match onPostRestart s with
                 | Some handler => [RestartCallback handler]
                 | None => []
                 end |}.
Proof.
  intros Hs. unfold restart_resume, bind, deref, prepend, emit. simpl.
  rewrite Hs. simpl. by destruct (onPostRestart s).
Qed.

Lemma restart_registered (w : World) (r : Ref) (s : DefaultStream)
    (marker : option StreamMarker) :
  heap w !! r = Some s →
  is_Some (streams w !! id s) →
  sent_messages (events (restart r marker w)) = [restartMessage s marker]
  ∧ streams (world (restart r marker w)) = streams w
  ∧ heap (world (restart r marker w)) = heap w.
Proof.
  intros Hs Hi. unfold restart, bind.
  rewrite (restart_begin_registered w r s marker Hs Hi).
  destruct (Socket.next_reply (socket w)); [|done].
  rewrite (restart_resume_run _ r s) by done.
  simpl. by destruct (onPostRestart s).
Qed.

Lemma handleReconnection_enabled (w : World) :
  autoRestartStreamsOnReconnect w = true →
  handleReconnection w =
    (promises <- mapM (Object_keys (streams w)) restart_each ;;
     forEach promises resume_each) w.
Proof.
  intros Hauto. unfold handleReconnection.
  unfold bind at 1, get at 1. cbn beta iota. rewrite Hauto, prepend_nil. cbn [negb].
  unfold bind at 1, get at 1. cbn beta iota. rewrite prepend_nil.
  reflexivity.
Qed.

(** ** The registry invariant is kept by every operation *)

Lemma wf_frame (w w' : World) :
  streams w' = streams w → heap w' = heap w → wf w → wf w'.
Proof. unfold wf. intros -> ->. done. Qed.

Lemma wf_createStreamClient (wsUrl : string) (options : StreamClientOptions) :
  wf (createStreamClient wsUrl options).
Proof. intros i r. simpl. by rewrite lookup_empty. Qed.

Lemma wf_with_script (script : list Reply) (w : World) : wf w → wf (with_script script w).
Proof. by apply wf_frame. Qed.

Lemma wf_allocated (w : World) (message : OutboundMessage.t) (onMessage : OnStreamMessage)
    (i : string) (r : Ref) :
  wf w →
  <[OutboundMessage.req_id message := length (heap w)]> (streams w) !! i = Some r →
  ∃ s, (heap w ++ [new_stream message onMessage]) !! r = Some s ∧ id s = i
       ∧ OutboundMessage.req_id (registrationMessage s) = i.
Proof.
  intros Hwf. rewrite lookup_insert. case_decide as Hi.
  - intros [= <-]. subst i. exists (new_stream message onMessage).
    by rewrite deref_new.
  - intros Hr. destruct (Hwf i r Hr) as (s & Hs & ? & ?).
    exists s. split; [|done]. by apply lookup_app_l_Some.
Qed.

Lemma wf_registerStream (w : World) (message : OutboundMessage.t)
    (onMessage : OnStreamMessage) :
  wf w → wf (world (registerStream message onMessage w)).
Proof.
  intros Hwf.
  destruct (registerStream_outcome w message onMessage)
    as [e' Hlen Hconn|r' Hi'|w1 pre Hpre Hi' Hsend Hname|w1 pre e' Hpre Hi' Hsend Hname
       |w1 pre Hpre Hi' Hname]; simpl;
    try done.
  - assert (streams w1 = streams w ∧ heap w1 = heap w) as [Hst Hhp]
      by (by destruct Hpre).
    intros i r. simpl. rewrite Hst, Hhp. by apply wf_allocated.
  - assert (streams w1 = streams w ∧ heap w1 = heap w) as [Hst Hhp]
      by (by destruct Hpre).
    intros i r. simpl. rewrite Hst, Hhp.
    intros Hr%lookup_delete_Some. destruct Hr as [_ Hr]. by eapply wf_allocated.
  - by destruct Hpre.
Qed.

Lemma wf_unregisterStream (w : World) (i : string) :
  wf w → wf (world (unregisterStream i w)).
Proof.
  intros Hwf.
  destruct (unregisterStream_outcome w i); simpl; try done;
    intros j r'; simpl; intros [_ Hr]%lookup_delete_Some; by apply Hwf.
Qed.

Lemma wf_mark (w : World) (r : Ref) (options : StreamMarker) :
  wf w → wf (world (mark r options w)).
Proof.
  intros Hwf. unfold mark, bind, deref, modify, prepend.
  destruct (heap w !! r) as [s|] eqn:Hs; simpl; [|done].
  intros i r' Hr'. simpl in *.
  destruct (Hwf i r' Hr') as (s' & Hs' & ? & ?).
  destruct (decide (r = r')) as [<-|Hne].
  - assert (s' = s) as -> by congruence.
    eexists. split; [apply list_lookup_insert_eq; by eapply lookup_lt_Some|done].
  - exists s'. by rewrite list_lookup_insert_ne.
Qed.

Lemma wf_one_stream : wf one_stream.
Proof. apply wf_registerStream, wf_createStreamClient. Qed.

Lemma wf_two_streams : wf two_streams.
Proof. apply wf_registerStream, wf_one_stream. Qed.

(** The scenario of the specification: register, receive, mark, reconnect,
    unregister. *)
Example scenario_chain_1 :
  events ((stream <- registerStream chain_1 "onChain1" ;;
           handleMessage progress_chain_1 ;;
           mark stream {| atBlockNum := 5 |} ;;
           handleReconnection ;;
           unregisterStream "chain.1") fresh_client) =
    [SocketEvent Connect Succeeds;
     RegistryInsert "chain.1";
     SocketEvent (Send chain_1) Succeeds;
     MessageCallback "onChain1" progress_chain_1;
     SocketEvent (Send (OutboundMessage.set_start_block 5 chain_1)) Succeeds;
     RegistryDelete "chain.1";
     SocketEvent (Send (unlistenMessage "chain.1")) Succeeds;
     SocketEvent Disconnect Succeeds].
Proof. vm_compute. reflexivity. Qed.

(** ** Stream count and connection state *)

Lemma registerStream_count (w : World) (message : OutboundMessage.t)
    (onMessage : OnStreamMessage) :
  size (streams (world (registerStream message onMessage w))) =
    size (streams w) +
    match result (registerStream message onMessage w) with
    | Returned _ => 1
    | Thrown _ => 0
    end.
Proof.
  destruct (registerStream_outcome w message onMessage)
    as [e' Hlen Hconn|r' Hi'|w1 pre Hpre Hi' Hsend Hname|w1 pre e' Hpre Hi' Hsend Hname
       |w1 pre Hpre Hi' Hname]; simpl;
    try lia.
  - assert (streams w1 = streams w) as -> by (by destruct Hpre).
    rewrite map_size_insert_None by done. lia.
  - assert (streams w1 = streams w) as -> by (by destruct Hpre).
    rewrite delete_insert_eq, delete_id by done. lia.
  - assert (streams w1 = streams w) as -> by (by destruct Hpre). lia.
Qed.

Lemma unregisterStream_count (w : World) (i : string) :
  size (streams (world (unregisterStream i w))) +
    (if bool_decide (is_Some (streams w !! i)) then 1 else 0) =
  size (streams w).
Proof.
  destruct (unregisterStream_outcome w i) as [Hi| | |]; simpl;
    [|apply size_delete..].
  apply get_property_Undefined in Hi as [Hi _].
  rewrite bool_decide_eq_false_2; [lia|]. rewrite Hi. by intros [? ?].
Qed.

(** Whatever fails, a call leaves the Connection connected when streams
    are registered. *)
Lemma registerStream_connected (w : World) (message : OutboundMessage.t)
    (onMessage : OnStreamMessage) :
  connected_if_streams w →
  connected_if_streams (world (registerStream message onMessage w)).
Proof.
  unfold connected_if_streams. rewrite <-length_Object_keys.
  assert (∀ w1 pre, ConnectPhase w w1 pre →
            (length (Object_keys (streams w)) ≠ 0 → Socket.isConnected (socket w) = true) →
            streams w1 = streams w ∧ Socket.isConnected (socket w1) = true) as Hphase.
  { intros w1 pre [Hlen Hconn|Hlen] Hinv; simpl.
    - unfold Socket.after. by rewrite Hconn.
    - auto. }
  destruct (registerStream_outcome w message onMessage)
    as [e' Hlen Hconn|r' Hi'|w1 pre Hpre Hi' Hsend Hname|w1 pre e' Hpre Hi' Hsend Hname
       |w1 pre Hpre Hi' Hname]; simpl; intros Hinv.
  - rewrite length_Object_keys in Hlen. by intros [].
  - by rewrite <-length_Object_keys.
  - destruct (Hphase w1 pre Hpre Hinv) as [_ Hon].
    intros _. unfold Socket.after. by rewrite Hsend.
  - destruct (Hphase w1 pre Hpre Hinv) as [_ Hon].
    intros _. unfold Socket.after. by rewrite Hsend.
  - destruct (Hphase w1 pre Hpre Hinv) as [_ Hon]. done.
Qed.

Lemma unregisterStream_connected (w : World) (i : string) :
  connected_if_streams w →
  connected_if_streams (world (unregisterStream i w)).
Proof.
  unfold connected_if_streams.
  assert (size (delete i (streams w)) ≠ 0 → size (streams w) ≠ 0) as Hleft.
  { pose proof (size_delete (streams w) i). lia. }
  destruct (unregisterStream_outcome w i)
    as [Hi|e Hi Hsend|Hi Hsend Hlen|reply Hi Hsend Hlen Hreply]; simpl; intros Hinv.
  - done.
  - intros Hsize. unfold Socket.after. rewrite Hsend. auto.
  - intros Hsize. unfold Socket.after. rewrite Hsend. auto.
  - rewrite length_Object_keys in Hlen. by intros [].
Qed.

(** A call in which no [send] and no [disconnect] fails, and which does
    not ask to register an inherited name, leaves the Connection
    disconnected when no stream is registered. *)
Lemma registerStream_disconnected (w : World) (message : OutboundMessage.t)
    (onMessage : OnStreamMessage) :
  sends_and_disconnects_succeed (events (registerStream message onMessage w)) →
  inherited (OutboundMessage.req_id message) = false →
  connected_only_if_streams w →
  connected_only_if_streams (world (registerStream message onMessage w)).
Proof.
  unfold sends_and_disconnects_succeed, connected_only_if_streams.
  destruct (registerStream_outcome w message onMessage)
    as [e' Hlen Hconn|r' Hi'|w1 pre Hpre Hi' Hsend Hname|w1 pre e' Hpre Hi' Hsend Hname
       |w1 pre Hpre Hi' Hname]; simpl.
  - intros _ _ Hinv. unfold Socket.after. by rewrite Hconn.
  - done.
  - intros _ _ Hinv _.
    assert (streams w1 = streams w) as -> by (by destruct Hpre).
    rewrite map_size_insert_None by done. lia.
  - intros Hok. exfalso. rewrite forallb_app in Hok.
    apply andb_true_iff in Hok as [_ Hok]. simpl in Hok. done.
  - congruence.
Qed.

Lemma unregisterStream_disconnected (w : World) (i : string) :
  sends_and_disconnects_succeed (events (unregisterStream i w)) →
  connected_only_if_streams w →
  connected_only_if_streams (world (unregisterStream i w)).
Proof.
  unfold sends_and_disconnects_succeed, connected_only_if_streams.
  destruct (unregisterStream_outcome w i)
    as [Hi|e Hi Hsend|Hi Hsend Hlen|reply Hi Hsend Hlen Hreply]; simpl.
  - done.
  - done.
  - intros _ Hinv _. by rewrite <-length_Object_keys.
  - intros Hok Hinv. rewrite <-Hreply. by destruct reply.
Qed.

Lemma run_calls_register (calls : list Call) (message : OutboundMessage.t)
    (onMessage : OnStreamMessage) (w : World) :
  let first := registerStream message onMessage w in
  let rest := run_calls calls (world first) in
  run_calls (RegisterStream message onMessage :: calls) w =
    {| result := match result rest with
                 | Returned tally =>
                     Returned match result first with
                              | Returned _ => {| registered := S (registered tally);
                                                 unregistered := unregistered tally |}
                              | Thrown _ => tally
                              end
                 | Thrown e => Thrown e
                 end;
       world := world rest;
       events := events first ++ events rest |}.
Proof.
  cbn [run_calls]. unfold bind at 1, settle.
  destruct (registerStream message onMessage w) as [res w' evs].
  unfold prepend, bind at 1. simpl.
  destruct (run_calls calls w') as [[tally|e] w'' evs']; simpl; [|done].
  by rewrite app_nil_r.
Qed.

Lemma run_calls_unregister (calls : list Call) (i : string) (w : World) :
  let first := unregisterStream i w in
  let rest := run_calls calls (world first) in
  run_calls (UnregisterStream i :: calls) w =
    {| result := match result rest with
                 | Returned tally =>
                     Returned (if bool_decide (is_Some (streams w !! i))
                               then {| registered := registered tally;
                                       unregistered := S (unregistered tally) |}
                               else tally)
                 | Thrown e => Thrown e
                 end;
       world := world rest;
       events := events first ++ events rest |}.
Proof.
  cbn [run_calls]. unfold bind at 1, get. cbn beta iota.
  rewrite prepend_nil. unfold bind at 1, settle.
  destruct (unregisterStream i w) as [res w' evs].
  unfold prepend, bind at 1. simpl.
  destruct (run_calls calls w') as [[tally|e] w'' evs']; simpl; [|done].
  by rewrite app_nil_r.
Qed.

(** Claim C1 as it is stated fails: a registration whose [send] fails on a
    new client has connected the socket, and leaves it connected next to an
    empty registry. *)
Lemma register_unregister_sequences_counterexample :
  ¬ ∀ (calls : list Call) (script : list Reply),
      NoDup (registered_ids calls) →
      let run := run_calls calls (with_script script fresh_client) in
      ∀ tally, result run = Returned tally →
        size (streams (world run)) = registered tally - unregistered tally
        ∧ (Socket.isConnected (socket (world run)) = true
           ↔ size (streams (world run)) ≠ 0).
Proof.
  intros Hclaim.
  destruct (Hclaim [RegisterStream chain_1 "onChain1"] [Succeeds; Fails socket_closed])
    with (tally := {| registered := 0; unregistered := 0 |}) as [_ [Hconnected _]].
  - vm_compute. repeat constructor. by intros ?%elem_of_nil.
  - vm_compute. reflexivity.
  - vm_compute in Hconnected. by apply Hconnected.
Qed.

(** Claim C1, as the code has it.  Whatever the calls of a sequence of
    [registerStream] and [unregisterStream] calls are, and whichever of them
    fail, the number of entries of the registry after the sequence is the
    number before it, plus the registrations that succeeded, minus the
    unregistrations whose id was a key of the registry; and if the
    Connection was connected whenever the registry was non-empty before the
    sequence (as with a new client), it is connected whenever the registry
    is non-empty after it.  The converse needs more: if no [send] and no
    [disconnect] fails during the sequence, no registration asks for a name
    inherited from [Object.prototype], and the Connection was connected
    only when the registry was non-empty before the sequence (as with a new
    client), then after it the Connection is connected only when the
    registry is non-empty. *)
Theorem register_unregister_sequences (calls : list Call) (w : World) :
  let run := run_calls calls w in
  ∃ tally,
    result run = Returned tally
    ∧ size (streams (world run)) + unregistered tally =
        size (streams w) + registered tally
    ∧ (connected_if_streams w → connected_if_streams (world run))
    ∧ (sends_and_disconnects_succeed (events run) →
       Forall (λ i, inherited i = false) (registered_ids calls) →
       connected_only_if_streams w →
       connected_only_if_streams (world run)).
Proof.
  revert w. induction calls as [|[message onMessage|i] calls IH]; intros w run; subst run.
  - exists {| registered := 0; unregistered := 0 |}.
    cbn [run_calls ret result world events registered unregistered].
    split; [done|]. split; [lia|done].
  - rewrite run_calls_register. cbn zeta.
    destruct (IH (world (registerStream message onMessage w)))
      as (tally & Hres & Hcount & Hif & Honly).
    rewrite Hres. cbn [result world events].
    pose proof (registerStream_count w message onMessage) as Hfirst.
    eexists. split; [done|]. split; [|split].
    + destruct (result (registerStream message onMessage w)); simpl; lia.
    + intros Hinv. by apply Hif, registerStream_connected.
    + unfold sends_and_disconnects_succeed. rewrite forallb_app.
      intros [Hok1 Hok2]%andb_true_iff Hnames Hinv.
      cbn [registered_ids omap] in Hnames. apply Forall_cons in Hnames as [Hname Hnames].
      apply Honly; [done..|]. by apply registerStream_disconnected.
  - rewrite run_calls_unregister. cbn zeta.
    destruct (IH (world (unregisterStream i w))) as (tally & Hres & Hcount & Hif & Honly).
    rewrite Hres. cbn [result world events].
    pose proof (unregisterStream_count w i) as Hfirst.
    eexists. split; [done|]. split; [|split].
    + destruct (bool_decide (is_Some (streams w !! i))); simpl; lia.
    + intros Hinv. by apply Hif, unregisterStream_connected.
    + unfold sends_and_disconnects_succeed. rewrite forallb_app.
      intros [Hok1 Hok2]%andb_true_iff Hnames Hinv.
      apply Honly; [done..|]. by apply unregisterStream_disconnected.
Qed.

Lemma register_unregister_sequences_witness :
  let w := world (run_calls [RegisterStream chain_1 "onChain1";
                             RegisterStream chain_2 "onChain2";
                             UnregisterStream "chain.1"; UnregisterStream "chain.2"]
                    fresh_client) in
  connected_if_streams w ∧ connected_only_if_streams w.
Proof.
  destruct (register_unregister_sequences
              [RegisterStream chain_1 "onChain1"; RegisterStream chain_2 "onChain2";
               UnregisterStream "chain.1"; UnregisterStream "chain.2"] fresh_client)
    as (tally & _ & _ & Hif & Honly).
  split.
  - apply Hif. vm_compute. by intros [].
  - apply Honly.
    + vm_compute. reflexivity.
    + vm_compute. repeat constructor.
    + vm_compute. discriminate.
Defined.

(** ** Failing registrations *)

(** Claim C2.  If the [send] of the registration message fails with [e],
    [registerStream] fails with the [DfuseClientError] "Unable to correctly
    register stream '<id>'" that wraps [e]; the record inserted before the
    send has been deleted before the error leaves (the trace ends with
    insert, failed send, delete), so that the registry holds no entry for
    the id and is the one of before the call. *)
Theorem registerStream_send_failure (w : World) (message : OutboundMessage.t)
    (onMessage : OnStreamMessage) (e : Error) :
  let run := registerStream message onMessage w in
  let id := OutboundMessage.req_id message in
  SocketEvent (Send message) (Fails e) ∈ events run →
  result run = Thrown (DfuseClientError (registration_failed_message id) (Some e))
  ∧ streams (world run) !! id = None
  ∧ streams (world run) = streams w
  ∧ ∃ before, events run =
      before ++ [RegistryInsert id; SocketEvent (Send message) (Fails e); RegistryDelete id].
Proof.
  intros run i. subst run i.
  destruct (registerStream_outcome w message onMessage)
    as [e' Hlen Hconn|r Hi|w1 pre Hpre Hi Hsend Hname|w1 pre e' Hpre Hi Hsend Hname
       |w1 pre Hpre Hi Hname]; simpl.
  - rewrite list_elem_of_singleton. congruence.
  - by rewrite elem_of_nil.
  - intros Hin. exfalso. destruct Hpre; simpl in Hin;
      repeat (apply elem_of_cons in Hin as [Hin|Hin]; [congruence|]);
      by apply elem_of_nil in Hin.
  - intros Hin.
    assert (e' = e) as ->.
    { destruct Hpre; simpl in Hin;
        repeat (apply elem_of_cons in Hin as [Hin|Hin]; [congruence|]);
        by apply elem_of_nil in Hin. }
    assert (streams w1 = streams w) as Hw1 by (by destruct Hpre).
    rewrite Hw1. repeat split.
    + apply lookup_delete_eq.
    + rewrite delete_insert_eq. by apply delete_id.
    + by exists pre.
  - intros Hin. exfalso. destruct Hpre; simpl in Hin;
      repeat (apply elem_of_cons in Hin as [Hin|Hin]; [congruence|]);
      by apply elem_of_nil in Hin.
Qed.

Lemma registerStream_send_failure_witness :
  result (registerStream chain_1 "onChain1"
            (with_script [Succeeds; Fails socket_closed] fresh_client)) =
    Thrown (DfuseClientError "Unable to correctly register stream 'chain.1'"
              (Some socket_closed))
  ∧ streams (world (registerStream chain_1 "onChain1"
                      (with_script [Succeeds; Fails socket_closed] fresh_client)))
      !! "chain.1" = None.
Proof.
  destruct (registerStream_send_failure
              (with_script [Succeeds; Fails socket_closed] fresh_client)
              chain_1 "onChain1" socket_closed) as (Hresult & Hgone & _).
  - vm_compute. repeat constructor.
  - split; [exact Hresult|exact Hgone].
Defined.

(** Claim C3.  [registerStream] with an id that is already registered
    fails with the [DfuseClientError] whose message names the id, changes
    nothing and calls nothing; inbound messages for the id are still given
    to the callback of the stream that was there. *)
Theorem registerStream_duplicate (w : World) (message : OutboundMessage.t)
    (onMessage : OnStreamMessage) (r : Ref) :
  streams w !! OutboundMessage.req_id message = Some r →
  registerStream message onMessage w =
    {| result := Thrown (DfuseClientError
                           (duplicate_message (OutboundMessage.req_id message)) None);
       world := w; events := [] |}
  ∧ ∀ (s : DefaultStream) (inbound : InboundMessage.t),
      heap w !! r = Some s →
      routing_id inbound = OutboundMessage.req_id message →
      events (handleMessage inbound (world (registerStream message onMessage w))) =
        [MessageCallback (onMessageHandler s) inbound].
Proof.
  intros Hi.
  assert (registerStream message onMessage w =
    {| result := Thrown (DfuseClientError
                           (duplicate_message (OutboundMessage.req_id message)) None);
       world := w; events := [] |}) as Hrun.
  { destruct (registerStream_outcome w message onMessage)
      as [e' Hlen Hconn|r' Hi'|w1 pre Hpre Hi' Hsend Hname|w1 pre e' Hpre Hi' Hsend Hname
         |w1 pre Hpre Hi' Hname];
      try congruence.
    by apply Object_keys_nonempty in Hi. }
  split; [exact Hrun|].
  intros s inbound Hs Hid. rewrite Hrun. simpl.
  unfold handleMessage, bind, get, deref, emit, prepend. simpl.
  apply get_property_Stream in Hi. rewrite Hid, Hi, Hs. reflexivity.
Qed.

Lemma registerStream_duplicate_witness :
  registerStream chain_1 "onChain1Again" one_stream =
    {| result := Thrown (DfuseClientError
                           "A stream with id 'chain.1' is already registered, cannot register another one with the same id"
                           None);
       world := one_stream; events := [] |}.
Proof.
  apply (registerStream_duplicate one_stream chain_1 "onChain1Again" 0).
  vm_compute. reflexivity.
Defined.

(** The id of a stream object is never a name of [Object.prototype]:
    the duplicate check of [registerStream] stops such an id before the
    object is built.  On a new client the call has connected the socket by
    then, and leaves it connected next to an empty registry. *)
Lemma registerStream_inherited_name (w : World) (message : OutboundMessage.t)
    (onMessage : OnStreamMessage) :
  inherited (OutboundMessage.req_id message) = true →
  let run := registerStream message onMessage w in
  (result run = Thrown (DfuseClientError
                          (duplicate_message (OutboundMessage.req_id message)) None)
   ∨ ∃ e, result run = Thrown e ∧ events run = [SocketEvent Connect (Fails e)])
  ∧ streams (world run) = streams w
  ∧ heap (world run) = heap w.
Proof.
  intros Hname run. subst run.
  destruct (registerStream_outcome w message onMessage)
    as [e' Hlen Hconn|r' Hi'|w1 pre Hpre Hi' Hsend Hname'|w1 pre e' Hpre Hi' Hsend Hname'
       |w1 pre Hpre Hi' Hname']; simpl; try congruence.
  - split; [right; by exists e'|done].
  - split; [by left|done].
  - split; [by left|]. by destruct Hpre.
Qed.

Example registerStream_toString :
  let run := registerStream
               {| OutboundMessage.type := "get_head_info";
                  OutboundMessage.req_id := "toString";
                  OutboundMessage.start_block := None; OutboundMessage.data := "" |}
               "onHead" fresh_client in
  result run = Thrown (DfuseClientError (duplicate_message "toString") None)
  ∧ events run = [SocketEvent Connect Succeeds]
  ∧ Socket.isConnected (socket (world run)) = true
  ∧ size (streams (world run)) = 0.
Proof. vm_compute. done. Qed.

(** ** Restart *)

(** Claim C4.  [restart(marker?)] of a registered stream sends one
    message, equal to the registration message except for [start_block],
    which is the block of the marker argument if there is one, else the
    block of the stored marker if [mark] set one, else the original value.
    The stream object, and with it the stored registration message, is the
    same after the call.  After [mark(options)], [restart()] sends the
    registration message with [start_block] at the marked block. *)
Theorem restart_start_block (w : World) (r : Ref) (s : DefaultStream)
    (marker : option StreamMarker) :
  heap w !! r = Some s →
  is_Some (streams w !! id s) →
  let original := registrationMessage s in
  (∃ message,
     sent_messages (events (restart r marker w)) = [message]
     ∧ OutboundMessage.type message = OutboundMessage.type original
     ∧ OutboundMessage.req_id message = OutboundMessage.req_id original
     ∧ OutboundMessage.data message = OutboundMessage.data original
     ∧ OutboundMessage.start_block message =
         match marker with
         | Some marker => Some (atBlockNum marker)
         | None =>
             match activeMarker s with
             | Some stored => Some (atBlockNum stored)
             | None => OutboundMessage.start_block original
             end
         end)
  ∧ heap (world (restart r marker w)) !! r = Some s
  ∧ ∀ options : StreamMarker,
      let run := (mark r options ;; restart r None) w in
      (∃ message,
         sent_messages (events run) = [message]
         ∧ OutboundMessage.type message = OutboundMessage.type original
         ∧ OutboundMessage.req_id message = OutboundMessage.req_id original
         ∧ OutboundMessage.data message = OutboundMessage.data original
         ∧ OutboundMessage.start_block message = Some (atBlockNum options))
      ∧ registrationMessage <$> heap (world run) !! r = Some original.
Proof.
  intros Hs Hi original.
  pose proof (restart_registered w r s marker Hs Hi) as (Hsent & _ & Hheap).
  split; [|split].
  - exists (restartMessage s marker). split; [done|].
    pose proof (restartMessage_fields s marker) as (? & ? & ? & Hblock).
    repeat split; try done.
  - by rewrite Hheap.
  - intros options run. subst run.
    set (s' := {| id := id s; onPostRestart := onPostRestart s;
                  activeMarker := Some options;
                  registrationMessage := registrationMessage s;
                  onMessageHandler := onMessageHandler s |}).
    set (w' := set_heap (λ h, <[r:=s']> h) w).
    assert (heap w' !! r = Some s') as Hs'.
    { simpl. apply list_lookup_insert_eq. by eapply lookup_lt_Some. }
    assert ((mark r options ;; restart r None) w = restart r None w') as ->.
    { unfold mark, bind at 1 2, deref, modify, prepend. rewrite Hs. simpl.
      fold s'. fold w'. by destruct (restart r None w'). }
    pose proof (restart_registered w' r s' None Hs' Hi) as (Hsent' & _ & Hheap').
    split.
    + exists (restartMessage s' None). by rewrite Hsent'.
    + by rewrite Hheap', Hs'.
Qed.

Lemma restart_start_block_witness :
  ∃ message,
    sent_messages (events ((mark 0 {| atBlockNum := 5 |} ;; restart 0 None) one_stream)) =
      [message]
    ∧ OutboundMessage.start_block message = Some 5%Z.
Proof.
  destruct (restart_start_block one_stream 0 (new_stream chain_1 "onChain1") None)
    as (_ & _ & Hmark).
  - vm_compute. reflexivity.
  - exists 0. vm_compute. reflexivity.
  - destruct (Hmark {| atBlockNum := 5 |}) as ((message & Hsent & _ & _ & _ & Hblock) & _).
    exists message. split; [exact Hsent|exact Hblock].
Defined.

(** Claim C8 as it is stated fails: the check of [restart] is made on the
    id, not on the stream.  A handle whose stream was unregistered is not
    in the registry any more once another stream has been registered under
    its id, yet its [restart] goes through and sends the registration
    message of the handle. *)
Lemma restart_not_registered_counterexample :
  ¬ ∀ (w : World) (r : Ref) (s : DefaultStream) (marker : option StreamMarker),
      heap w !! r = Some s →
      (∀ i, streams w !! i ≠ Some r) →
      (∃ e, result (restart r marker w) = Thrown e)
      ∧ sent_messages (events (restart r marker w)) = [].
Proof.
  intros Hclaim.
  destruct (Hclaim reused_id 0 (new_stream chain_1 "onChain1") None) as [_ Hsent].
  - vm_compute. reflexivity.
  - intros i Hi.
    assert (streams reused_id = {[ "chain.1" := 1 ]}) as Hregistry
      by (vm_compute; reflexivity).
    rewrite Hregistry in Hi. apply lookup_singleton_Some in Hi as [_ Hi]. done.
  - vm_compute in Hsent. discriminate.
Qed.

(** Claim C8, as the code has it.  [restart] of a stream whose id is not a
    property of the registry (the read [this.streams[id]] gives
    [undefined]) fails with the [DfuseClientError] "Trying to restart a
    stream '<id>' that is not registered anymore or was never registered";
    the socket is not called and nothing changes. *)
Theorem restart_not_registered (w : World) (r : Ref) (s : DefaultStream)
    (marker : option StreamMarker) :
  heap w !! r = Some s →
  get_property (streams w) (id s) = Undefined →
  restart r marker w =
    {| result := Thrown (DfuseClientError (not_registered_message (id s)) None);
       world := w; events := [] |}.
Proof.
  intros Hs Hi.
  unfold restart, restart_begin, bind, deref, streamExists, get, prepend. simpl.
  rewrite Hs. simpl. rewrite Hi.
  reflexivity.
Qed.

Lemma restart_not_registered_witness :
  restart 0 None (world (unregisterStream "chain.1" one_stream)) =
    {| result := Thrown (DfuseClientError
                           "Trying to restart a stream 'chain.1' that is not registered anymore or was never registered"
                           None);
       world := world (unregisterStream "chain.1" one_stream); events := [] |}.
Proof.
  apply (restart_not_registered (world (unregisterStream "chain.1" one_stream)) 0
           (new_stream chain_1 "onChain1") None); vm_compute; reflexivity.
Defined.

(** ** Reconnection *)

Lemma restart_each_run (w w' : World) (i : string) :
  wf w → streams w' = streams w → heap w' = heap w →
  is_Some (streams w !! i) →
  ∃ r s settled,
    restart_of w i (restartMessage s None)
    ∧ heap w !! r = Some s
    ∧ restart_each i w' =
        {| result := Returned (r, settled);
           world := set_socket (Socket.after (Send (restartMessage s None))) w';
           events := [SocketEvent (Send (restartMessage s None))
                        (Socket.next_reply (socket w'))] |}.
Proof.
  intros Hwf Hstreams Hheap [r Hr].
  destruct (Hwf i r Hr) as (s & Hs & Hid & Hreq).
  exists r, s. eexists. split; [|split; [done|]].
  { exists s. unfold stream_at. rewrite Hr. split; [done|]. split; [done|].
    by destruct (restartMessage_fields s None) as (_ & -> & _). }
  unfold restart_each, bind at 1, get. rewrite Hstreams.
  rewrite (proj2 (get_property_Stream _ _ _) Hr).
  unfold prepend, bind, settle.
  rewrite (restart_begin_registered w' r s None).
  - reflexivity.
  - by rewrite Hheap.
  - rewrite Hstreams, Hid. eauto.
Qed.

Lemma restart_loop_run (w : World) (keys : list string) :
  wf w →
  (∀ i, i ∈ keys → is_Some (streams w !! i)) →
  ∀ w', streams w' = streams w → heap w' = heap w →
  ∃ promises,
    result (mapM keys restart_each w') = Returned promises
    ∧ streams (world (mapM keys restart_each w')) = streams w
    ∧ heap (world (mapM keys restart_each w')) = heap w
    ∧ Forall (λ promise, is_Some (heap w !! promise.1)) promises
    ∧ Forall2 (restart_of w)
        keys (sent_messages (events (mapM keys restart_each w'))).
Proof.
  intros Hwf. induction keys as [|i keys IH]; intros Hkeys w' Hstreams Hheap.
  - exists []. simpl. repeat split; try done; constructor.
  - destruct (restart_each_run w w' i Hwf Hstreams Hheap) as (r & s & settled & Hat & Hs & Hrun).
    { apply Hkeys. by left. }
    destruct (IH (λ j Hj, Hkeys j (proj2 (elem_of_cons _ _ _) (or_intror Hj)))
                (set_socket (Socket.after (Send (restartMessage s None))) w'))
      as (promises & Hres & Hst & Hhp & Hall & Hsent); [done..|].
    exists ((r, settled) :: promises).
    remember (mapM (i :: keys) restart_each w') as run eqn:Heq.
    cbn [mapM] in Heq. unfold bind at 1 in Heq. rewrite Hrun in Heq.
    unfold prepend, bind at 1 in Heq.
    destruct (mapM keys restart_each _) as [res w'' evs]. simpl in *. subst res run.
    rewrite app_nil_r. repeat split; try done.
    + constructor; [simpl; eauto|done].
    + by constructor.
Qed.

Lemma resume_loop_run (w : World) (promises : list (Ref * Result unit)) :
  Forall (λ promise, is_Some (heap w !! promise.1)) promises →
  result (forEach promises resume_each w) = Returned tt
  ∧ world (forEach promises resume_each w) = w
  ∧ sent_messages (events (forEach promises resume_each w)) = [].
Proof.
  induction 1 as [|[r settled] promises [s Hs] _ IH]; [done|].
  remember (forEach ((r, settled) :: promises) resume_each w) as run eqn:Heq.
  cbn [forEach] in Heq. unfold bind at 1 in Heq.
  assert (∃ evs, resume_each (r, settled) w =
                 {| result := Returned tt; world := w; events := evs |}
                 ∧ sent_messages evs = []) as (evs & Hrun & Hevs).
  { destruct settled as [[]|e]; simpl.
    - unfold bind, settle. rewrite (restart_resume_run w r s) by done. simpl.
      eexists. split; [done|]. by destruct (onPostRestart s).
    - by exists []. }
  rewrite Hrun in Heq. unfold prepend in Heq.
  destruct (forEach promises resume_each w) as [res w' evs']. simpl in *.
  destruct IH as (-> & -> & Hevs'). subst run. simpl.
  repeat split; try done.
  unfold sent_messages in *. by rewrite omap_app, Hevs, Hevs'.
Qed.

(** Claim C5.  With [autoRestartStreamsOnReconnect] off,
    [handleReconnection] does nothing.  The option is on when it is not
    given.  With the option on, however the socket replies to each send
    (so also when some restarts fail), the messages handed to [send] are, key by
    key of the registry, the restart message of the stream registered under
    that key; the keys have no duplicates and are exactly the registered
    ids, so every active stream is restarted once. *)
Theorem handleReconnection_restarts_every_stream (w : World) :
  (autoRestartStreamsOnReconnect w = false →
   handleReconnection w = {| result := Returned tt; world := w; events := [] |})
  ∧ (∀ wsUrl options,
       opt_autoRestartStreamsOnReconnect options = None →
       autoRestartStreamsOnReconnect (createStreamClient wsUrl options) = true)
  ∧ (autoRestartStreamsOnReconnect w = true →
     wf w →
     ∀ script,
       let run := handleReconnection (with_script script w) in
       result run = Returned tt
       ∧ Forall2 (restart_of w)
           (Object_keys (streams w)) (sent_messages (events run))
       ∧ NoDup (Object_keys (streams w))
       ∧ ∀ i, i ∈ Object_keys (streams w) ↔ is_Some (streams w !! i)).
Proof.
  split; [|split].
  - intros Hauto. unfold handleReconnection, bind, get. by rewrite Hauto.
  - intros wsUrl options Hnone. unfold createStreamClient. simpl. by rewrite Hnone.
  - intros Hauto Hwf script run. subst run.
    rewrite handleReconnection_enabled by done.
    destruct (restart_loop_run w (Object_keys (streams w)) Hwf
                (λ i, proj1 (elem_of_Object_keys _ i)) (with_script script w))
      as (promises & Hres & Hst & Hhp & Hall & Hsent); [done..|].
    unfold bind. simpl streams.
    destruct (mapM (Object_keys (streams w)) restart_each (with_script script w))
      as [res w' evs]. simpl in Hres, Hst, Hhp, Hsent. subst res.
    assert (Forall (λ promise, is_Some (heap w' !! promise.1)) promises) as Hall'
      by (by rewrite Hhp).
    destruct (resume_loop_run w' promises Hall') as (Hres' & _ & Hsent').
    destruct (forEach promises resume_each w') as [res' w'' evs']. simpl in *.
    repeat split.
    + done.
    + unfold sent_messages in *. by rewrite omap_app, Hsent', app_nil_r.
    + apply NoDup_Object_keys.
    + apply elem_of_Object_keys.
    + apply elem_of_Object_keys.
Qed.

Lemma handleReconnection_restarts_every_stream_witness :
  Forall2 (restart_of two_streams)
    (Object_keys (streams two_streams))
    (sent_messages
       (events (handleReconnection
                  (with_script [Fails socket_closed; Succeeds] two_streams)))).
Proof.
  destruct (handleReconnection_restarts_every_stream two_streams) as (_ & _ & Hall).
  destruct (Hall eq_refl wf_two_streams [Fails socket_closed; Succeeds])
    as (_ & Hsent & _).
  exact Hsent.
Defined.

(** ** Order of the effects *)

(** Claim C6.  Whatever socket the client is given, [registerStream]
    calls [send] with the registration message in a world in which the
    record is in the registry, under the id of the message, and leads to
    the new stream object; when no stream was registered, this world is
    built on the one [connect] returned in, and a [connect] that fails
    ends the call before anything is sent.  [unregisterStream] calls
    [send] with the unlisten message in a world in which the record is no
    longer in the registry.  What a socket does during [send] (routing an
    answer of the server, for one) therefore finds the record of a
    registration in place, and the record of an unregistration gone. *)
Theorem ordering_guarantees (connection : Connection.t) (w : World) :
  (∀ message onMessage w1 pre,
     let id := OutboundMessage.req_id message in
     let stream := length (heap w1) in
     let w_send :=
       set_streams (insert id stream)
         (set_heap (λ h, h ++ [new_stream message onMessage]) w1) in
     Connected connection w w1 pre →
     get_property (streams w1) id = Undefined →
     registerStream_with connection message onMessage w =
       prepend (pre ++ [RegistryInsert id])
         ((try_catch (Connection.send connection message) (registration_failed id) ;;
           ret stream) w_send)
     ∧ streams w_send !! id = Some stream
     ∧ heap w_send !! stream = Some (new_stream message onMessage))
  ∧ (∀ message onMessage e w1 pre,
       length (Object_keys (streams w)) = 0 →
       Connection.connect connection w =
         {| result := Thrown e; world := w1; events := pre |} →
       registerStream_with connection message onMessage w =
         {| result := Thrown e; world := w1; events := pre |})
  ∧ (∀ i,
       let w_send := set_streams (delete i) w in
       get_property (streams w) i ≠ Undefined →
       unregisterStream_with connection i w =
         prepend [RegistryDelete i]
           ((Connection.send connection (unlistenMessage i) ;;
             disconnect_when_empty connection) w_send)
       ∧ streams w_send !! i = None).
Proof.
  split; [|split].
  - intros message onMessage w1 pre i stream w_send Hconnected Hfree.
    split; [|split]; [|apply lookup_insert_eq|apply deref_new].
    subst i stream w_send.
    unfold registerStream_with, start_with, registration_failed, new_DefaultStream,
      deref, bind, prepend, try_catch, get, modify, emit, ret, throw.
    simpl.
    destruct Hconnected as [w1 pre Hlen Hconnect|Hlen].
    + rewrite decide_True by done. rewrite Hconnect. simpl. rewrite Hfree. simpl.
      rewrite deref_new. simpl.
      destruct (Connection.send connection message _) as [[[]|e] w2 evs]; simpl;
        by rewrite ?app_nil_r, <-?app_assoc.
    + rewrite decide_False by done. simpl. rewrite Hfree. simpl.
      rewrite deref_new. simpl.
      destruct (Connection.send connection message _) as [[[]|e] w2 evs]; simpl;
        by rewrite ?app_nil_r.
  - intros message onMessage e w1 pre Hlen Hconnect.
    unfold registerStream_with, bind at 1, get at 1. cbn beta iota.
    rewrite prepend_nil. unfold bind at 1.
    rewrite decide_True by done. by rewrite Hconnect.
  - intros i w_send Hdefined. split; [|apply lookup_delete_eq].
    apply defined_get_property in Hdefined. subst w_send.
    unfold unregisterStream_with, disconnect_when_empty,
      bind, prepend, get, modify, emit, ret.
    simpl. rewrite Hdefined. simpl.
    destruct (Connection.send connection (unlistenMessage i) _) as [[[]|e] w2 evs];
      simpl; [|done].
    destruct (decide _); [|done].
    by destruct (Connection.disconnect connection w2).
Qed.

(** On a socket whose server answers during [send], the answer to a
    registration reaches the callback of the new stream, and an answer to
    an unregistration finds no stream any more. *)
Lemma ordering_guarantees_witness :
  events (registerStream_with (answering [progress_chain_1]) chain_1 "onChain1"
            fresh_client) =
    [SocketEvent Connect Succeeds; RegistryInsert "chain.1";
     SocketEvent (Send chain_1) Succeeds; MessageCallback "onChain1" progress_chain_1]
  ∧ events (unregisterStream_with (answering [progress_chain_1]) "chain.1" one_stream) =
      [RegistryDelete "chain.1"; SocketEvent (Send (unlistenMessage "chain.1")) Succeeds;
       SocketEvent Disconnect Succeeds].
Proof.
  split.
  - destruct (ordering_guarantees (answering [progress_chain_1]) fresh_client)
      as (Hregister & _ & _).
    destruct (Hregister chain_1 "onChain1"
                (set_socket (Socket.after Connect) fresh_client)
                [SocketEvent Connect Succeeds]) as (-> & _ & _).
    + apply connected_first; vm_compute; reflexivity.
    + vm_compute. reflexivity.
    + vm_compute. reflexivity.
  - destruct (ordering_guarantees (answering [progress_chain_1]) one_stream)
      as (_ & _ & Hunregister).
    destruct (Hunregister "chain.1") as (-> & _).
    + vm_compute. discriminate.
    + vm_compute. reflexivity.
Defined.

(** ** Inbound routing *)

Lemma routing_id_Some (message : InboundMessage.t) (i : string) :
  InboundMessage.req_id message = Some i → routing_id message = i.
Proof. unfold routing_id. intros ->. by case_decide. Qed.

Lemma handleMessage_registered (w : World) (message : InboundMessage.t)
    (r : Ref) (s : DefaultStream) :
  streams w !! routing_id message = Some r →
  heap w !! r = Some s →
  handleMessage message w =
    {| result := Returned tt; world := w;
       events := [MessageCallback (onMessageHandler s) message] |}.
Proof.
  intros Hr%get_property_Stream Hs.
  unfold handleMessage, bind, get, deref, emit, prepend. simpl.
  by rewrite Hr, Hs.
Qed.

(** A message whose id is neither registered nor a name of
    [Object.prototype] is dropped: nothing is called, nothing changes and
    nothing is thrown. *)
Lemma handleMessage_unregistered (w : World) (message : InboundMessage.t) :
  get_property (streams w) (routing_id message) = Undefined →
  handleMessage message w = {| result := Returned tt; world := w; events := [] |}.
Proof. intros Hr. unfold handleMessage, bind, get. simpl. by rewrite Hr. Qed.

(** A message without [req_id] is looked up under the empty id. *)
Lemma handleMessage_without_id (w : World) (message : InboundMessage.t)
    (s : DefaultStream) :
  InboundMessage.req_id message = None →
  stream_at w "" = Some s →
  handleMessage message w =
    {| result := Returned tt; world := w;
       events := [MessageCallback (onMessageHandler s) message] |}.
Proof.
  intros Hnone. unfold stream_at.
  destruct (streams w !! "") as [r|] eqn:Hr; [|done]. simpl. intros Hs.
  apply (handleMessage_registered w message r s); [|done].
  unfold routing_id. by rewrite Hnone.
Qed.

(** The routing of every inbound message, with or without [req_id]: to
    the callback of the stream registered under its id and to no other;
    dropped when its id is neither registered nor inherited. *)
Lemma handleMessage_routed (w : World) (message : InboundMessage.t) :
  (∀ (r : Ref) (s : DefaultStream),
     streams w !! routing_id message = Some r →
     heap w !! r = Some s →
     handleMessage message w =
       {| result := Returned tt; world := w;
          events := [MessageCallback (onMessageHandler s) message] |})
  ∧ (streams w !! routing_id message = None →
     inherited (routing_id message) = false →
     handleMessage message w = {| result := Returned tt; world := w; events := [] |}).
Proof.
  split.
  - apply handleMessage_registered.
  - intros Hr Hname. by apply handleMessage_unregistered, get_property_Undefined.
Qed.

(** Claim C7 does not hold of the code for the ids that are names of
    [Object.prototype]: no stream is registered under such an id, and an
    inbound message that carries it is not dropped.  [handleMessage]
    throws the [TypeError] of calling [onMessage] on the inherited value;
    no callback is called and nothing changes. *)
Theorem handleMessage_inherited_name (w : World) (message : InboundMessage.t) :
  streams w !! routing_id message = None →
  inherited (routing_id message) = true →
  handleMessage message w =
    {| result := Thrown (TypeError "stream.onMessage is not a function");
       world := w; events := [] |}.
Proof.
  intros Hr Hname.
  assert (get_property (streams w) (routing_id message) = Inherited) as Hproperty
    by (by apply get_property_Inherited).
  unfold handleMessage, bind, get. simpl. by rewrite Hproperty.
Qed.

Lemma handleMessage_inherited_name_witness :
  handleMessage progress_toString one_stream =
    {| result := Thrown (TypeError "stream.onMessage is not a function");
       world := one_stream; events := [] |}.
Proof.
  apply handleMessage_inherited_name; vm_compute; reflexivity.
Defined.

(** ** Unregistration *)

(** [unregisterStream] of an id that is neither registered nor a name of
    [Object.prototype] returns normally, leaves registry, socket and heap
    as they are, and calls neither [send], [connect] nor [disconnect]. *)
Lemma unregisterStream_undefined (w : World) (i : string) :
  get_property (streams w) i = Undefined →
  unregisterStream i w = {| result := Returned tt; world := w; events := [] |}.
Proof.
  intros Hi.
  destruct (unregisterStream_outcome w i); congruence.
Qed.

(** Claim C9 does not hold of the code for the ids that are names of
    [Object.prototype]: no record exists for such an id, and
    [unregisterStream] is not a no-op.  It sends the unlisten message for
    the id and, when that went through and no stream is registered, calls
    [disconnect]. *)
Theorem unregisterStream_inherited_name (w : World) (i : string) :
  streams w !! i = None →
  inherited i = true →
  let reply := Socket.next_reply (socket w) in
  ∃ rest,
    events (unregisterStream i w) =
      RegistryDelete i :: SocketEvent (Send (unlistenMessage i)) reply :: rest
    ∧ (reply = Succeeds → size (streams w) = 0 →
       rest = [SocketEvent Disconnect
                 (Socket.next_reply
                    (Socket.after (Send (unlistenMessage i)) (socket w)))]).
Proof.
  intros Hi Hname reply. subst reply.
  assert (get_property (streams w) i ≠ Undefined) as Hdefined.
  { rewrite (proj2 (get_property_Inherited _ _) (conj Hi Hname)). done. }
  destruct (unregisterStream_outcome w i)
    as [Hi'|e Hi' Hsend|Hi' Hsend Hlen|reply Hi' Hsend Hlen Hreply]; simpl.
  - done.
  - rewrite Hsend. eexists. split; [done|]. done.
  - rewrite Hsend. eexists. split; [done|]. intros _ Hsize.
    rewrite length_Object_keys, delete_id in Hlen by done. done.
  - rewrite Hsend. eexists. split; [done|]. intros _ _. by subst reply.
Qed.

Lemma unregisterStream_inherited_name_witness :
  events (unregisterStream "constructor" fresh_client) =
    [RegistryDelete "constructor";
     SocketEvent (Send (unlistenMessage "constructor")) Succeeds;
     SocketEvent Disconnect Succeeds].
Proof.
  destruct (unregisterStream_inherited_name fresh_client "constructor")
    as (rest & -> & Hrest).
  - vm_compute. reflexivity.
  - vm_compute. reflexivity.
  - rewrite Hrest; [|reflexivity|vm_compute; reflexivity].
    vm_compute. reflexivity.
Defined.

(** Claim C10.  When the [send] of the unlisten message fails with [e],
    [unregisterStream] of a registered id fails with [e] itself; the record
    is gone all the same, [disconnect] has not been called, and the state of
    the Connection is the one of before the call: when the stream was the
    last one, the Connection stays connected with an empty registry. *)
Theorem unregisterStream_send_failure (w : World) (i : string) (r : Ref) (e : Error) :
  streams w !! i = Some r →
  Socket.next_reply (socket w) = Fails e →
  let run := unregisterStream i w in
  result run = Thrown e
  ∧ streams (world run) = delete i (streams w)
  ∧ events run = [RegistryDelete i; SocketEvent (Send (unlistenMessage i)) (Fails e)]
  ∧ Socket.isConnected (socket (world run)) = Socket.isConnected (socket w)
  ∧ (Socket.isConnected (socket w) = true → size (streams w) = 1 →
     Socket.isConnected (socket (world run)) = true ∧ size (streams (world run)) = 0).
Proof.
  intros Hi He run. subst run.
  destruct (unregisterStream_outcome w i) as [Hi'|e' Hi' He'| |]; try congruence.
  { apply get_property_Undefined in Hi' as [Hi' _]. congruence. }
  assert (e' = e) as -> by congruence.
  simpl. unfold Socket.after. rewrite He. simpl.
  repeat split; try done.
  rewrite map_size_delete_Some by eauto. lia.
Qed.

Lemma unregisterStream_send_failure_witness :
  result (unregisterStream "chain.1" (with_script [Fails socket_closed] one_stream)) =
    Thrown socket_closed
  ∧ Socket.isConnected
      (socket (world (unregisterStream "chain.1"
                        (with_script [Fails socket_closed] one_stream)))) = true
  ∧ size (streams (world (unregisterStream "chain.1"
                            (with_script [Fails socket_closed] one_stream)))) = 0.
Proof.
  destruct (unregisterStream_send_failure (with_script [Fails socket_closed] one_stream)
              "chain.1" 0 socket_closed) as (Hresult & _ & _ & _ & Hlast).
  - vm_compute. reflexivity.
  - vm_compute. reflexivity.
  - destruct Hlast as [Hconnected Hempty].
    + vm_compute. reflexivity.
    + vm_compute. reflexivity.
    + split; [exact Hresult|]. split; [exact Hconnected|exact Hempty].
Defined.

(** ** The other operations of a stream and of the client *)

Lemma currentActiveMarker_mark (w : World) (r : Ref) (s : DefaultStream)
    (options : StreamMarker) :
  heap w !! r = Some s →
  result ((mark r options ;; currentActiveMarker r) w) = Returned (Some options).
Proof.
  intros Hs. unfold mark, currentActiveMarker, bind, deref, modify, prepend, ret.
  rewrite Hs. simpl.
  rewrite list_lookup_insert_eq by (by eapply lookup_lt_Some). done.
Qed.

(** [close()] does nothing once the socket is disconnected. *)
Lemma close_disconnected (w : World) (r : Ref) (s : DefaultStream) :
  heap w !! r = Some s →
  Socket.isConnected (socket w) = false →
  close r w = {| result := Returned tt; world := w; events := [] |}.
Proof.
  intros Hs Hoff. unfold close, bind, deref, get, prepend, ret.
  rewrite Hs. simpl. by rewrite Hoff.
Qed.

(** [close()] on a connected socket is [unregisterStream] of the id of the
    stream. *)
Lemma close_connected (w : World) (r : Ref) (s : DefaultStream) :
  heap w !! r = Some s →
  Socket.isConnected (socket w) = true →
  close r w = unregisterStream (id s) w.
Proof.
  intros Hs Hon. unfold close, bind at 1, deref. rewrite Hs.
  unfold ret, prepend, bind at 1, get at 1. cbn beta iota. rewrite Hon.
  rewrite prepend_nil. by destruct (unregisterStream (id s) w).
Qed.

(** [release()] never throws, whatever the socket replies. *)
Lemma release_never_throws (w : World) : result (release w) = Returned tt.
Proof.
  unfold release, bind, settle, socket_call, prepend, ret. simpl. done.
Qed.

(** * Further properties of the stream client *)

(** ** Registration *)

(** When the first registration cannot connect, the error of the socket
    leaves [registerStream] as it is (it is not wrapped), no record is
    inserted and nothing is sent. *)
Theorem registerStream_connect_failure (w : World) (message : OutboundMessage.t)
    (onMessage : OnStreamMessage) (e : Error) :
  size (streams w) = 0 →
  Socket.next_reply (socket w) = Fails e →
  let run := registerStream message onMessage w in
  result run = Thrown e
  ∧ events run = [SocketEvent Connect (Fails e)]
  ∧ same_client w (world run)
  ∧ Socket.isConnected (socket (world run)) = Socket.isConnected (socket w).
Proof.
  intros Hsize Hreply run. subst run.
  rewrite <-length_Object_keys in Hsize.
  destruct (registerStream_outcome w message onMessage)
    as [e' Hlen Hconn|r' Hi'|w1 pre Hpre Hi' Hsend Hname|w1 pre e' Hpre Hi' Hsend Hname
       |w1 pre Hpre Hi' Hname].
  - assert (e' = e) as -> by congruence. simpl.
    repeat split. unfold Socket.after. by rewrite Hreply.
  - by apply Object_keys_nonempty in Hi'.
  - destruct Hpre; congruence.
  - destruct Hpre; congruence.
  - destruct Hpre; congruence.
Qed.

Lemma registerStream_connect_failure_witness :
  result (registerStream chain_1 "onChain1"
            (with_script [Fails socket_closed] fresh_client)) = Thrown socket_closed
  ∧ events (registerStream chain_1 "onChain1"
              (with_script [Fails socket_closed] fresh_client)) =
      [SocketEvent Connect (Fails socket_closed)].
Proof.
  destruct (registerStream_connect_failure (with_script [Fails socket_closed] fresh_client)
              chain_1 "onChain1" socket_closed) as (Hresult & Hevents & _).
  - vm_compute. reflexivity.
  - vm_compute. reflexivity.
  - split; [exact Hresult|exact Hevents].
Defined.

(** A registration that returns has put a new stream object, without
    marker and without hook, under the [req_id] of its message, and from
    then on an inbound message with that [req_id] is given to the callback
    of the registration. *)
Theorem registerStream_then_routed (w : World) (message : OutboundMessage.t)
    (onMessage : OnStreamMessage) (stream : Ref) :
  result (registerStream message onMessage w) = Returned stream →
  let w' := world (registerStream message onMessage w) in
  streams w' !! OutboundMessage.req_id message = Some stream
  ∧ heap w' !! stream = Some (new_stream message onMessage)
  ∧ heap w !! stream = None
  ∧ ∀ inbound,
      InboundMessage.req_id inbound = Some (OutboundMessage.req_id message) →
      handleMessage inbound w' =
        {| result := Returned tt; world := w';
           events := [MessageCallback onMessage inbound] |}.
Proof.
  intros Hresult w'. subst w'. revert Hresult.
  destruct (registerStream_outcome w message onMessage)
    as [e' Hlen Hconn|r' Hi'|w1 pre Hpre Hi' Hsend Hname|w1 pre e' Hpre Hi' Hsend Hname
       |w1 pre Hpre Hi' Hname];
    simpl; try done.
  intros [= <-].
  assert (heap w1 = heap w) as Hheap by (by destruct Hpre).
  split; [by rewrite lookup_insert_eq|].
  split; [by rewrite Hheap, deref_new|].
  split; [by apply lookup_ge_None|].
  intros inbound Hid.
  apply (handleMessage_registered _ inbound (length (heap w)) (new_stream message onMessage)).
  - rewrite (routing_id_Some inbound _ Hid). simpl. by rewrite lookup_insert_eq.
  - simpl. by rewrite Hheap, deref_new.
Qed.

Lemma registerStream_then_routed_witness :
  handleMessage progress_chain_1 one_stream =
    {| result := Returned tt; world := one_stream;
       events := [MessageCallback "onChain1" progress_chain_1] |}.
Proof.
  destruct (registerStream_then_routed fresh_client chain_1 "onChain1" 0) as (_ & _ & _ & Hroute).
  - vm_compute. reflexivity.
  - apply Hroute. reflexivity.
Defined.

Lemma registerStream_world (w : World) (message : OutboundMessage.t)
    (onMessage : OnStreamMessage) :
  let w' := world (registerStream message onMessage w) in
  (∀ j, j ≠ OutboundMessage.req_id message → streams w' !! j = streams w !! j)
  ∧ (∀ r s, heap w !! r = Some s → heap w' !! r = Some s)
  ∧ autoRestartStreamsOnReconnect w' = autoRestartStreamsOnReconnect w.
Proof.
  intros w'. subst w'.
  destruct (registerStream_outcome w message onMessage)
    as [e' Hlen Hconn|r' Hi'|w1 pre Hpre Hi' Hsend Hname|w1 pre e' Hpre Hi' Hsend Hname
       |w1 pre Hpre Hi' Hname];
    simpl; try done.
  - assert (streams w1 = streams w ∧ heap w1 = heap w
            ∧ autoRestartStreamsOnReconnect w1 = autoRestartStreamsOnReconnect w)
      as (-> & -> & ->) by (by destruct Hpre).
    repeat split.
    + intros j Hj. by rewrite lookup_insert_ne.
    + intros r s Hs. by apply lookup_app_l_Some.
  - assert (streams w1 = streams w ∧ heap w1 = heap w
            ∧ autoRestartStreamsOnReconnect w1 = autoRestartStreamsOnReconnect w)
      as (-> & -> & ->) by (by destruct Hpre).
    repeat split.
    + intros j Hj. by rewrite lookup_delete_ne, lookup_insert_ne.
    + intros r s Hs. by apply lookup_app_l_Some.
  - by destruct Hpre.
Qed.

(** Whatever way a call to [registerStream] goes, the entries of the other
    ids stay as they are, the stream objects that exist stay as they are,
    and the restart option is not touched. *)
Theorem registerStream_frame (w : World) (message : OutboundMessage.t)
    (onMessage : OnStreamMessage) :
  let w' := world (registerStream message onMessage w) in
  (∀ j, j ≠ OutboundMessage.req_id message → streams w' !! j = streams w !! j)
  ∧ (∀ r s, heap w !! r = Some s → heap w' !! r = Some s)
  ∧ autoRestartStreamsOnReconnect w' = autoRestartStreamsOnReconnect w.
Proof. exact (registerStream_world w message onMessage). Qed.

(** ** Unregistration *)

Lemma unregisterStream_world (w : World) (i : string) :
  let w' := world (unregisterStream i w) in
  streams w' = delete i (streams w)
  ∧ heap w' = heap w
  ∧ autoRestartStreamsOnReconnect w' = autoRestartStreamsOnReconnect w.
Proof.
  intros w'. subst w'.
  destruct (unregisterStream_outcome w i) as [Hi| | |]; simpl; try done.
  apply get_property_Undefined in Hi as [Hi _]. by rewrite delete_id.
Qed.

(** Whatever way a call to [unregisterStream] goes (unknown id, failing
    send, failing disconnect), the registry afterwards is the registry of
    before without the id, and stream objects and restart option are the
    same. *)
Theorem unregisterStream_registry (w : World) (i : string) :
  let w' := world (unregisterStream i w) in
  streams w' = delete i (streams w)
  ∧ heap w' = heap w
  ∧ autoRestartStreamsOnReconnect w' = autoRestartStreamsOnReconnect w.
Proof. exact (unregisterStream_world w i). Qed.

(** Registering an id that was free and unregistering it again gives back
    the registry of before, whichever of the two calls fails. *)
Theorem register_then_unregister (w : World) (message : OutboundMessage.t)
    (onMessage : OnStreamMessage) :
  streams w !! OutboundMessage.req_id message = None →
  streams (world (unregisterStream (OutboundMessage.req_id message)
                    (world (registerStream message onMessage w)))) = streams w.
Proof.
  intros Hfree.
  destruct (unregisterStream_world (world (registerStream message onMessage w))
              (OutboundMessage.req_id message)) as (-> & _).
  destruct (registerStream_outcome w message onMessage)
    as [e' Hlen Hconn|r' Hi'|w1 pre Hpre Hi' Hsend Hname|w1 pre e' Hpre Hi' Hsend Hname
       |w1 pre Hpre Hi' Hname]; simpl.
  - by rewrite delete_id.
  - by rewrite delete_id.
  - assert (streams w1 = streams w) as -> by (by destruct Hpre).
    by rewrite delete_insert_eq, delete_id.
  - assert (streams w1 = streams w) as -> by (by destruct Hpre).
    by rewrite delete_delete_eq, delete_insert_eq, delete_id.
  - assert (streams w1 = streams w) as -> by (by destruct Hpre).
    by rewrite delete_id.
Qed.

Lemma register_then_unregister_witness :
  streams (world (unregisterStream "chain.2"
                    (world (registerStream chain_2 "onChain2"
                              (with_script [Fails socket_closed] one_stream))))) =
    streams (with_script [Fails socket_closed] one_stream).
Proof.
  apply (register_then_unregister (with_script [Fails socket_closed] one_stream)
           chain_2 "onChain2").
  vm_compute. reflexivity.
Defined.

(** [unregisterStream] is idempotent for every id that is not a name of
    [Object.prototype]: called again with the same id it returns normally
    and does nothing, also when the first call failed. *)
Theorem unregisterStream_twice (w : World) (i : string) :
  inherited i = false →
  let w' := world (unregisterStream i w) in
  unregisterStream i w' = {| result := Returned tt; world := w'; events := [] |}.
Proof.
  intros Hname w'.
  assert (streams w' !! i = None) as Hgone.
  { subst w'. destruct (unregisterStream_world w i) as (-> & _).
    apply lookup_delete_eq. }
  apply unregisterStream_undefined. by apply get_property_Undefined.
Qed.

Lemma unregisterStream_twice_witness :
  unregisterStream "chain.1"
    (world (unregisterStream "chain.1" (with_script [Fails socket_closed] two_streams))) =
    {| result := Returned tt;
       world := world (unregisterStream "chain.1"
                         (with_script [Fails socket_closed] two_streams));
       events := [] |}.
Proof.
  apply (unregisterStream_twice (with_script [Fails socket_closed] two_streams) "chain.1").
  vm_compute. reflexivity.
Defined.

(** [unregisterStream] calls [disconnect] exactly when its guard
    [this.streams[id] === undefined] does not stop it (the id is
    registered, or it is a name of [Object.prototype]), the unlisten
    message could be sent, and no stream is left; it never calls
    [connect]. *)
Theorem unregisterStream_disconnects_iff (w : World) (i : string) :
  let evs := events (unregisterStream i w) in
  (Exists is_disconnect evs
   ↔ (is_Some (streams w !! i) ∨ inherited i = true)
     ∧ Socket.next_reply (socket w) = Succeeds
     ∧ size (delete i (streams w)) = 0)
  ∧ Forall (λ e, ¬ is_connect e) evs.
Proof.
  intros evs. subst evs.
  assert (get_property (streams w) i ≠ Undefined
          ↔ is_Some (streams w !! i) ∨ inherited i = true) as Hguard.
  { rewrite get_property_Undefined.
    destruct (streams w !! i), (inherited i); split; try (intros [[? ?]|?]); try done;
      intros Hdefined; try (by left; eauto); try (by right); by destruct Hdefined. }
  rewrite <-Hguard.
  destruct (unregisterStream_outcome w i)
    as [Hi|e Hi Hsend|Hi Hsend Hlen|reply Hi Hsend Hlen Hreply]; simpl.
  - split; [|constructor]. rewrite Exists_nil. split; [done|]. by intros [? _].
  - split; [|repeat constructor; by intros []].
    rewrite !Exists_cons, Exists_nil. simpl. split; [tauto|].
    intros (_ & ? & _). congruence.
  - split; [|repeat constructor; by intros []].
    rewrite !Exists_cons, Exists_nil. simpl. split; [tauto|].
    rewrite length_Object_keys in Hlen. by intros (_ & _ & ?).
  - split; [|repeat constructor; by intros []].
    rewrite !Exists_cons, Exists_nil. simpl.
    rewrite length_Object_keys in Hlen. split; [|tauto]. eauto.
Qed.

Lemma unregisterStream_disconnects_iff_witness :
  Exists is_disconnect (events (unregisterStream "chain.1" one_stream))
  ∧ ¬ Exists is_disconnect (events (unregisterStream "chain.1" two_streams)).
Proof.
  split.
  - apply (proj1 (unregisterStream_disconnects_iff one_stream "chain.1")).
    split; [left; exists 0; vm_compute; reflexivity|].
    split; vm_compute; reflexivity.
  - intros Hdisconnect.
    apply (proj1 (unregisterStream_disconnects_iff two_streams "chain.1")) in Hdisconnect.
    destruct Hdisconnect as (_ & _ & Hempty). vm_compute in Hempty. discriminate.
Defined.

Lemma registerStream_connect_events (w : World) (message : OutboundMessage.t)
    (onMessage : OnStreamMessage) :
  let evs := events (registerStream message onMessage w) in
  (Exists is_connect evs ↔ size (streams w) = 0)
  ∧ Forall (λ e, ¬ is_disconnect e) evs.
Proof.
  intros evs. subst evs. rewrite <-length_Object_keys.
  destruct (registerStream_outcome w message onMessage)
    as [e' Hlen Hconn|r' Hi'|w1 pre Hpre Hi' Hsend Hname|w1 pre e' Hpre Hi' Hsend Hname
       |w1 pre Hpre Hi' Hname]; simpl.
  - split; [|repeat constructor; by intros []].
    rewrite Exists_cons. simpl. tauto.
  - split; [|constructor]. rewrite Exists_nil.
    apply Object_keys_nonempty in Hi'. tauto.
  - destruct Hpre as [Hlen Hconn|Hlen]; simpl;
      (split; [|repeat constructor; by intros []]);
      rewrite !Exists_cons, Exists_nil; simpl; tauto.
  - destruct Hpre as [Hlen Hconn|Hlen]; simpl;
      (split; [|repeat constructor; by intros []]);
      rewrite !Exists_cons, Exists_nil; simpl; tauto.
  - destruct Hpre as [Hlen Hconn|Hlen]; simpl;
      (split; [|repeat constructor; by intros []]);
      rewrite ?Exists_cons, Exists_nil; simpl; tauto.
Qed.

(** [registerStream] calls [connect] exactly when the registry is empty,
    whatever the socket reports about itself; it never calls
    [disconnect]. *)
Theorem registerStream_connects_iff (w : World) (message : OutboundMessage.t)
    (onMessage : OnStreamMessage) :
  let evs := events (registerStream message onMessage w) in
  (Exists is_connect evs ↔ size (streams w) = 0)
  ∧ Forall (λ e, ¬ is_disconnect e) evs.
Proof. exact (registerStream_connect_events w message onMessage). Qed.

(** ** Restart *)

(** [restart] of a registered stream calls [send] once; the
    [onPostRestart] hook, if the stream has one, is called once, after the
    send and only when the send succeeded; a failing send is thrown again
    as it is. *)
Theorem restart_hook (w : World) (r : Ref) (s : DefaultStream)
    (marker : option StreamMarker) :
  heap w !! r = Some s →
  is_Some (streams w !! id s) →
  let reply := Socket.next_reply (socket w) in
  restart r marker w =
    {| result := match reply with Succeeds => Returned tt | Fails e => Thrown e end;
       world := set_socket (Socket.after (Send (restartMessage s marker))) w;
       events := SocketEvent (Send (restartMessage s marker)) reply ::
                 match reply, onPostRestart s with
                 | Succeeds, Some handler => [RestartCallback handler]
                 | _, _ => []
                 end |}.
Proof.
  intros Hs Hi reply. subst reply. unfold restart, bind.
  rewrite (restart_begin_registered w r s marker Hs Hi).
  destruct (Socket.next_reply (socket w)); [|done].
  rewrite (restart_resume_run _ r s) by done.
  simpl. by destruct (onPostRestart s).
Qed.

Lemma restart_hook_witness :
  events (restart 0 None hooked_stream) =
    [SocketEvent (Send chain_1) Succeeds; RestartCallback "onRestarted"]
  ∧ events (restart 0 None (with_script [Fails socket_closed] hooked_stream)) =
      [SocketEvent (Send chain_1) (Fails socket_closed)].
Proof.
  split.
  - rewrite (restart_hook hooked_stream 0
               (with_onPostRestart "onRestarted" (new_stream chain_1 "onChain1")) None).
    + reflexivity.
    + vm_compute. reflexivity.
    + exists 0. vm_compute. reflexivity.
  - rewrite (restart_hook (with_script [Fails socket_closed] hooked_stream) 0
               (with_onPostRestart "onRestarted" (new_stream chain_1 "onChain1")) None).
    + reflexivity.
    + vm_compute. reflexivity.
    + exists 0. vm_compute. reflexivity.
Defined.

(** ** Marking *)

(** [mark] does no input or output and touches neither the registry nor
    the socket nor any other stream; of two marks the later one is the
    marker of the stream. *)
Theorem mark_twice (w : World) (r : Ref) (s : DefaultStream) (a b : StreamMarker) :
  heap w !! r = Some s →
  let run := (mark r a ;; mark r b) w in
  result run = Returned tt
  ∧ events run = []
  ∧ streams (world run) = streams w
  ∧ socket (world run) = socket w
  ∧ heap (world run) !! r = Some (marked b s)
  ∧ (∀ r', r' ≠ r → heap (world run) !! r' = heap w !! r')
  ∧ result (currentActiveMarker r (world run)) = Returned (Some b).
Proof.
  intros Hs run. subst run.
  assert (r < length (heap w)) as Hlt by (by eapply lookup_lt_Some).
  unfold mark, currentActiveMarker, bind, deref, modify, prepend, ret.
  rewrite Hs. simpl.
  rewrite list_lookup_insert_eq by done. simpl.
  rewrite list_insert_insert_eq.
  rewrite list_lookup_insert_eq by done.
  repeat split; try done.
  intros r' Hne. by rewrite list_lookup_insert_ne.
Qed.

Lemma mark_twice_witness :
  result (currentActiveMarker 0
            (world ((mark 0 {| atBlockNum := 5 |} ;; mark 0 {| atBlockNum := 3 |})
                      one_stream))) =
    Returned (Some {| atBlockNum := 3 |}).
Proof.
  destruct (mark_twice one_stream 0 (new_stream chain_1 "onChain1")
              {| atBlockNum := 5 |} {| atBlockNum := 3 |})
    as (_ & _ & _ & _ & _ & _ & Hmarker).
  - vm_compute. reflexivity.
  - exact Hmarker.
Defined.

(** ** Closing a stream *)

(** [close()] while the socket reports itself disconnected returns
    normally and does nothing: no unlisten message is sent and the stream
    stays registered, so that a later [restart()] of the handle still
    sends its registration message. *)
Theorem close_while_disconnected (w : World) (r : Ref) (s : DefaultStream) :
  heap w !! r = Some s →
  is_Some (streams w !! id s) →
  Socket.isConnected (socket w) = false →
  close r w = {| result := Returned tt; world := w; events := [] |}
  ∧ sent_messages (events (restart r None (world (close r w)))) =
      [restartMessage s None].
Proof.
  intros Hs Hi Hoff.
  assert (close r w = {| result := Returned tt; world := w; events := [] |}) as Hclose.
  { unfold close, bind, deref, get, prepend, ret. rewrite Hs. simpl. by rewrite Hoff. }
  split; [done|]. rewrite Hclose. simpl.
  by destruct (restart_registered w r s None Hs Hi) as (-> & _).
Qed.

Lemma close_while_disconnected_witness :
  close 0 (world (release one_stream)) =
    {| result := Returned tt; world := world (release one_stream); events := [] |}.
Proof.
  apply (close_while_disconnected (world (release one_stream)) 0
           (new_stream chain_1 "onChain1")).
  - vm_compute. reflexivity.
  - exists 0. vm_compute. reflexivity.
  - vm_compute. reflexivity.
Defined.

(** After [close()] on a connected socket the id of the stream is out of
    the registry, also when the unlisten message could not be sent, and a
    [restart] of the closed handle fails without calling the socket.  (The
    id of a stream object is never a name of [Object.prototype]:
    [registerStream] builds the object after its duplicate check, which
    those names do not pass.) *)
Theorem close_then_restart (w : World) (r : Ref) (s : DefaultStream)
    (marker : option StreamMarker) :
  heap w !! r = Some s →
  inherited (id s) = false →
  Socket.isConnected (socket w) = true →
  let w' := world (close r w) in
  streams w' = delete (id s) (streams w)
  ∧ restart r marker w' =
      {| result := Thrown (DfuseClientError (not_registered_message (id s)) None);
         world := w'; events := [] |}.
Proof.
  intros Hs Hname Hon w'. subst w'.
  rewrite (close_connected w r s Hs Hon).
  destruct (unregisterStream_world w (id s)) as (Hstreams & Hheap & _).
  split; [done|].
  unfold restart, restart_begin, bind, deref, streamExists, get, prepend. simpl.
  rewrite Hheap, Hs. simpl.
  rewrite (proj2 (get_property_Undefined _ _)); [reflexivity|].
  split; [|done]. rewrite Hstreams. apply lookup_delete_eq.
Qed.

Lemma close_then_restart_witness :
  restart 0 None (world (close 0 (with_script [Fails socket_closed] one_stream))) =
    {| result := Thrown (DfuseClientError (not_registered_message "chain.1") None);
       world := world (close 0 (with_script [Fails socket_closed] one_stream));
       events := [] |}.
Proof.
  apply (close_then_restart (with_script [Fails socket_closed] one_stream) 0
           (new_stream chain_1 "onChain1") None).
  - vm_compute. reflexivity.
  - vm_compute. reflexivity.
  - vm_compute. reflexivity.
Defined.

(** ** Releasing the client *)

(** [release()] calls [disconnect] once and never throws, whatever the
    socket replies, and it leaves the streams in the registry: a
    registration made after it, while streams are still registered, does
    not call [connect] before it sends. *)
Theorem release_then_register (w : World) (message : OutboundMessage.t)
    (onMessage : OnStreamMessage) :
  result (release w) = Returned tt
  ∧ events (release w) = [SocketEvent Disconnect (Socket.next_reply (socket w))]
  ∧ same_client w (world (release w))
  ∧ (size (streams w) ≠ 0 →
     ¬ Exists is_connect (events (registerStream message onMessage (world (release w))))).
Proof.
  assert (result (release w) = Returned tt
          ∧ events (release w) = [SocketEvent Disconnect (Socket.next_reply (socket w))]
          ∧ same_client w (world (release w))) as (Hresult & Hevents & Hsame).
  { unfold release, bind, settle, socket_call, prepend, ret. simpl. done. }
  repeat split; try done; try apply Hsame.
  intros Hsize Hconnect.
  apply (registerStream_connect_events (world (release w)) message onMessage) in Hconnect.
  destruct Hsame as (Hstreams & _). by rewrite Hstreams in Hconnect.
Qed.

Lemma release_then_register_witness :
  events (registerStream chain_2 "onChain2" (world (release one_stream))) =
    [RegistryInsert "chain.2"; SocketEvent (Send chain_2) Succeeds]
  ∧ ¬ Exists is_connect
        (events (registerStream chain_2 "onChain2" (world (release one_stream)))).
Proof.
  split; [vm_compute; reflexivity|].
  apply (release_then_register one_stream chain_2 "onChain2").
  vm_compute. discriminate.
Defined.

(** ** The invariants of a client in use *)

Lemma run_calls_world (calls : list Call) (w : World) :
  wf w →
  wf (world (run_calls calls w))
  ∧ autoRestartStreamsOnReconnect (world (run_calls calls w)) =
      autoRestartStreamsOnReconnect w.
Proof.
  revert w. induction calls as [|[message onMessage|i] calls IH]; intros w Hwf.
  - done.
  - rewrite run_calls_register. cbn zeta. cbn [world].
    destruct (IH (world (registerStream message onMessage w))
                (wf_registerStream w message onMessage Hwf)) as (Hwf' & ->).
    split; [done|]. by destruct (registerStream_world w message onMessage) as (_ & _ & ->).
  - rewrite run_calls_unregister. cbn zeta. cbn [world].
    destruct (IH (world (unregisterStream i w)) (wf_unregisterStream w i Hwf))
      as (Hwf' & ->).
    split; [done|]. by destruct (unregisterStream_world w i) as (_ & _ & ->).
Qed.

(** Every sequence of registrations and unregistrations keeps the registry
    well formed (each id leads to a stream object that carries this id, in
    [id] and in the [req_id] of its registration message) and leaves the
    restart option as it was set at creation. *)
Theorem run_calls_invariants (calls : list Call) (w : World) :
  wf w →
  wf (world (run_calls calls w))
  ∧ autoRestartStreamsOnReconnect (world (run_calls calls w)) =
      autoRestartStreamsOnReconnect w.
Proof. exact (run_calls_world calls w). Qed.

Lemma run_calls_invariants_witness :
  wf (world (run_calls [RegisterStream chain_1 "onChain1"; UnregisterStream "chain.1";
                        RegisterStream chain_1 "onChain1Again"]
               (with_script [Succeeds; Fails socket_closed] fresh_client))).
Proof.
  apply run_calls_invariants, wf_with_script, wf_createStreamClient.
Defined.

(** ** Reconnection *)

Lemma same_client_refl (w : World) : same_client w w.
Proof. done. Qed.

Lemma same_client_trans (w1 w2 w3 : World) :
  same_client w1 w2 → same_client w2 w3 → same_client w1 w3.
Proof. intros (? & ? & ?) (? & ? & ?). repeat split; congruence. Qed.

Lemma restarts_only_ret {A} (a : A) : restarts_only (ret a).
Proof. intros w. split; [apply same_client_refl|constructor]. Qed.

Lemma restarts_only_throw {A} (e : Error) : restarts_only (throw (A := A) e).
Proof. intros w. split; [apply same_client_refl|constructor]. Qed.

Lemma restarts_only_get {A} (f : World → A) : restarts_only (get f).
Proof. intros w. split; [apply same_client_refl|constructor]. Qed.

Lemma restarts_only_bind {A B} (m : M A) (k : A → M B) :
  restarts_only m → (∀ a, restarts_only (k a)) → restarts_only (bind m k).
Proof.
  intros Hm Hk w. unfold bind. specialize (Hm w).
  destruct (m w) as [[a|e] w1 evs1]; simpl in *; [|done].
  specialize (Hk a w1). destruct (k a w1) as [res w2 evs2]. simpl in *.
  destruct Hm as [Hw1 Hevs1], Hk as [Hw2 Hevs2].
  split; [by eapply same_client_trans|]. by apply Forall_app.
Qed.

Lemma restarts_only_settle {A} (m : M A) : restarts_only m → restarts_only (settle m).
Proof.
  intros Hm w. unfold settle. specialize (Hm w). by destruct (m w).
Qed.

Lemma restarts_only_send (message : OutboundMessage.t) :
  restarts_only (socket_call (Send message)).
Proof. intros w. split; [done|]. by repeat constructor. Qed.

Lemma restarts_only_deref (r : Ref) : restarts_only (deref r).
Proof.
  intros w. unfold deref. destruct (heap w !! r);
    (split; [apply same_client_refl|constructor]).
Qed.

Lemma restarts_only_mapM {A B} (l : list A) (f : A → M B) :
  (∀ x, restarts_only (f x)) → restarts_only (mapM l f).
Proof.
  intros Hf. induction l as [|x l IH]; cbn [mapM].
  - apply restarts_only_ret.
  - apply restarts_only_bind; [done|]. intros y.
    apply restarts_only_bind; [done|]. intros ys. apply restarts_only_ret.
Qed.

Lemma restarts_only_forEach {A} (l : list A) (f : A → M unit) :
  (∀ x, restarts_only (f x)) → restarts_only (forEach l f).
Proof.
  intros Hf. induction l as [|x l IH]; cbn [forEach].
  - apply restarts_only_ret.
  - apply restarts_only_bind; [done|]. by intros _.
Qed.

Lemma restarts_only_restart_begin (r : Ref) (marker : option StreamMarker) :
  restarts_only (restart_begin r marker).
Proof.
  unfold restart_begin.
  apply restarts_only_bind; [apply restarts_only_deref|]. intros s.
  apply restarts_only_bind; [apply restarts_only_get|]. intros registered.
  destruct registered; simpl;
    [apply restarts_only_send|apply restarts_only_throw].
Qed.

Lemma restarts_only_restart_resume (r : Ref) : restarts_only (restart_resume r).
Proof.
  unfold restart_resume.
  apply restarts_only_bind; [apply restarts_only_deref|]. intros s.
  destruct (onPostRestart s); [|apply restarts_only_ret].
  intros w. split; [done|]. by repeat constructor.
Qed.

(** On a reconnection the client restarts streams and does nothing else:
    registry, stream objects and restart option are left as they are, and
    every event is a [send] or the call of an [onPostRestart] hook (no
    [connect], no [disconnect], no message callback). *)
Theorem handleReconnection_restarts_only (w : World) :
  same_client w (world (handleReconnection w))
  ∧ Forall restart_event (events (handleReconnection w)).
Proof.
  revert w. change (restarts_only handleReconnection). unfold handleReconnection.
  apply restarts_only_bind; [apply restarts_only_get|]. intros enabled.
  destruct (negb enabled); [apply restarts_only_ret|].
  apply restarts_only_bind; [apply restarts_only_get|]. intros keys.
  apply restarts_only_bind.
  - apply restarts_only_mapM. intros streamId. unfold restart_each.
    apply restarts_only_bind; [apply restarts_only_get|]. intros [stream| |].
    + apply restarts_only_bind.
      * apply restarts_only_settle, restarts_only_restart_begin.
      * intros settled. apply restarts_only_ret.
    + apply restarts_only_throw.
    + apply restarts_only_throw.
  - intros promises. apply restarts_only_forEach. intros [stream [[]|e]]; simpl.
    + apply restarts_only_bind.
      * apply restarts_only_settle, restarts_only_restart_resume.
      * intros _. apply restarts_only_ret.
    + apply restarts_only_ret.
Qed.

(** A client created with [autoRestartStreamsOnReconnect: false] stays
    silent on every reconnection, whatever streams have been registered
    and unregistered in between. *)
Theorem no_restart_when_disabled (wsUrl : string) (options : StreamClientOptions)
    (calls : list Call) :
  opt_autoRestartStreamsOnReconnect options = Some false →
  let w := world (run_calls calls (createStreamClient wsUrl options)) in
  handleReconnection w = {| result := Returned tt; world := w; events := [] |}.
Proof.
  intros Hoff w.
  assert (autoRestartStreamsOnReconnect w = false) as Hflag.
  { subst w.
    destruct (run_calls_world calls (createStreamClient wsUrl options)
                (wf_createStreamClient wsUrl options)) as (_ & ->).
    simpl. by rewrite Hoff. }
  unfold handleReconnection, bind, get. by rewrite Hflag.
Qed.

Lemma no_restart_when_disabled_witness :
  events (handleReconnection
            (world (run_calls [RegisterStream chain_1 "onChain1";
                               RegisterStream chain_2 "onChain2"]
                      (createStreamClient "wss://mainnet.eos.dfuse.io/v1/stream"
                         {| opt_socket := None; opt_socketOptions := None;
                            opt_autoRestartStreamsOnReconnect := Some false |})))) = [].
Proof.
  rewrite (no_restart_when_disabled "wss://mainnet.eos.dfuse.io/v1/stream"
             {| opt_socket := None; opt_socketOptions := None;
                opt_autoRestartStreamsOnReconnect := Some false |}
             [RegisterStream chain_1 "onChain1"; RegisterStream chain_2 "onChain2"]).
  - reflexivity.
  - reflexivity.
Defined.

(** ** Inbound messages without id *)

(** An inbound message without [req_id], or with an empty one, is given to
    the stream that was registered with the empty [req_id], if there is
    one. *)
Theorem handleMessage_empty_id (w : World) (message : InboundMessage.t)
    (s : DefaultStream) :
  InboundMessage.req_id message = None ∨ InboundMessage.req_id message = Some "" →
  stream_at w "" = Some s →
  handleMessage message w =
    {| result := Returned tt; world := w;
       events := [MessageCallback (onMessageHandler s) message] |}.
Proof.
  intros Hid. unfold stream_at.
  destruct (streams w !! "") as [r|] eqn:Hr; [|done]. simpl. intros Hs.
  apply (handleMessage_registered w message r s); [|done].
  unfold routing_id. by destruct Hid as [->| ->].
Qed.

Lemma handleMessage_empty_id_witness :
  handleMessage heartbeat anonymous_stream =
    {| result := Returned tt; world := anonymous_stream;
       events := [MessageCallback "onHead" heartbeat] |}.
Proof.
  apply (handleMessage_empty_id anonymous_stream heartbeat (new_stream anonymous "onHead")).
  - left. reflexivity.
  - vm_compute. reflexivity.
Defined.

(** * Properties of the HTTP client *)

(** ** Strings *)

Lemma string_app_cons (c : Ascii.ascii) (s1 s2 : string) :
  String c s1 +:+ s2 = String c (s1 +:+ s2).
Proof. reflexivity. Qed.

Lemma string_app_empty_l (s : string) : "" +:+ s = s.
Proof. reflexivity. Qed.

Lemma string_app_empty_r (s : string) : s +:+ "" = s.
Proof. induction s as [|c s IH]; [done|]. by rewrite string_app_cons, IH. Qed.

Lemma string_app_assoc (s1 s2 s3 : string) : (s1 +:+ s2) +:+ s3 = s1 +:+ s2 +:+ s3.
Proof. induction s1 as [|c s1 IH]; [done|]. by rewrite !string_app_cons, IH. Qed.

(** ** Requests *)

(** The url of a request, when it can be built. *)
Lemma url_with_query_resolved (url : string) (params : option Http.HttpQueryParameters)
    (url' : string) :
  Http.url_with_query url params = Http.Resolved url' →
  (params = None ∨ params = Some [] → url' = url)
  ∧ (∀ entries, params = Some entries → entries ≠ [] →
     ∃ query, Http.queryParams entries = Http.Resolved query
              ∧ url' = url +:+ "?" +:+ query).
Proof.
  unfold Http.url_with_query. destruct params as [[|entry entries]|]; simpl.
  - intros [= <-]. split; [done|]. by intros ? [= <-].
  - destruct (Http.queryParams (entry :: entries)) as [query|e] eqn:Hresolved;
      simpl; [|done].
    intros [= <-]. split; [by intros [?|?]|]. intros ? [= <-] _. by exists query.
  - intros [= <-]. split; [done|]. by intros.
Qed.

Lemma url_with_query_rejected (url : string) (params : option Http.HttpQueryParameters)
    (error : Http.Error) :
  Http.url_with_query url params = Http.Rejected error ↔
  ∃ entries, params = Some entries ∧ entries ≠ []
             ∧ Http.queryParams entries = Http.Rejected error.
Proof.
  unfold Http.url_with_query. destruct params as [[|entry entries]|]; simpl.
  - split; [done|]. by intros (? & [= <-] & ? & _).
  - destruct (Http.queryParams (entry :: entries)) as [query|e] eqn:Hquery; simpl.
    + split; [done|]. intros (? & [= <-] & _ & ?). congruence.
    + split.
      * intros [= <-]. by exists (entry :: entries).
      * intros (? & [= <-] & _ & ?). congruence.
  - split; [done|]. by intros (? & ? & _).
Qed.

Section HttpClient.

Variable JSON_stringify : Http.Value → Http.Outcome (option string).
Variable api_error_data : string → Http.Outcome Http.Value.

Local Abbreviation request := (Http.request JSON_stringify api_error_data).
Local Abbreviation authRequest := (Http.authRequest JSON_stringify api_error_data).
Local Abbreviation apiRequest := (Http.apiRequest JSON_stringify api_error_data).

Lemma request_stringified (client : Http.DefaultHttpClient) (apiToken : option string)
    (url method : string) (params : option Http.HttpQueryParameters)
    (body : option Http.Value) (headers : option Http.HttpHeaders)
    (url' : string) (jsonBody : option string) :
  Http.url_with_query url params = Http.Resolved url' →
  match body with
  | Some body => JSON_stringify body
  | None => Http.Resolved None
  end = Http.Resolved jsonBody →
  ∃ init,
    request client apiToken url method params body headers =
      {| Http.outcome :=
           Http.rethrow (Http.handle_response api_error_data (Http.fetch client url' init));
         Http.fetched := [ {| Http.fetched_url := url'; Http.fetched_init := init |} ] |}
    ∧ Http.method init = method
    ∧ Http.body init = jsonBody.
Proof.
  intros Hurl Hbody. unfold Http.request. rewrite Hurl, Hbody.
  eexists. split; [reflexivity|]. done.
Qed.

(** Before [fetch] is called, [request] has built the url and the body. *)
Lemma request_fetched (client : Http.DefaultHttpClient) (apiToken : option string)
    (url method : string) (params : option Http.HttpQueryParameters)
    (body : option Http.Value) (headers : option Http.HttpHeaders) :
  Http.fetched (request client apiToken url method params body headers) = []
  ∨ ∃ url' jsonBody,
      Http.url_with_query url params = Http.Resolved url'
      ∧ match body with
        | Some body => JSON_stringify body
        | None => Http.Resolved None
        end = Http.Resolved jsonBody.
Proof.
  unfold Http.request.
  destruct (Http.url_with_query url params) as [url'|e]; [|by left].
  destruct (match body with Some b => JSON_stringify b | None => _ end) as [jsonBody|e];
    [|by left].
  right. by eexists _, _.
Qed.

(** When [JSON.stringify] throws on the body, [request] throws and [fetch]
    is not called.  What is thrown is the error of [JSON.stringify], not
    wrapped in a [DfuseClientError]; unless the query string could not be
    built either: it is built first, and its error is the one thrown. *)
Theorem request_body_not_serializable (client : Http.DefaultHttpClient)
    (apiToken : option string) (url method : string)
    (params : option Http.HttpQueryParameters) (body : Http.Value)
    (headers : option Http.HttpHeaders) (error : Http.Error) :
  JSON_stringify body = Http.Rejected error →
  request client apiToken url method params (Some body) headers =
    {| Http.outcome :=
         Http.Rejected match Http.url_with_query url params with
                       | Http.Rejected malformed => malformed
                       | Http.Resolved _ => error
                       end;
       Http.fetched := [] |}.
Proof.
  intros Hbody. unfold Http.request.
  destruct (Http.url_with_query url params); [|done]. by rewrite Hbody.
Qed.

(** When the query string can be built and [JSON.stringify] does not
    throw, [request] calls [fetch] once, with the method it was given and,
    as body, what [JSON.stringify] made of its body; without a body the
    body of the call is [undefined].  When the query string cannot be
    built (a key or a value with a lone surrogate, a value that cannot be
    converted to a string), [request] throws what [queryParams] throws,
    not wrapped, and [fetch] is not called. *)
Theorem request_fetches_once (client : Http.DefaultHttpClient)
    (apiToken : option string) (url method : string)
    (params : option Http.HttpQueryParameters) (body : option Http.Value)
    (headers : option Http.HttpHeaders) (jsonBody : option string) :
  (match params with
   | Some entries => ∃ query, Http.queryParams entries = Http.Resolved query
   | None => True
   end →
   match body with
   | Some body => JSON_stringify body = Http.Resolved jsonBody
   | None => jsonBody = None
   end →
   ∃ call,
     Http.fetched (request client apiToken url method params body headers) = [call]
     ∧ Http.method (Http.fetched_init call) = method
     ∧ Http.body (Http.fetched_init call) = jsonBody)
  ∧ (∀ entries malformed,
       params = Some entries → entries ≠ [] →
       Http.queryParams entries = Http.Rejected malformed →
       request client apiToken url method params body headers =
         {| Http.outcome := Http.Rejected malformed; Http.fetched := [] |}).
Proof.
  split.
  - intros Hparams Hbody.
    assert (∃ url', Http.url_with_query url params = Http.Resolved url') as [url' Hurl].
    { unfold Http.url_with_query. destruct params as [entries|]; [|by eexists].
      destruct Hparams as [query ->].
      destruct (Nat.ltb 0 (length entries.*1)); by eexists. }
    destruct (request_stringified client apiToken url method params body headers
                url' jsonBody Hurl) as (init & -> & Hmethod & Hjson).
    { destruct body; [done|by subst]. }
    by eexists.
  - intros entries malformed Hparams Hentries Hquery.
    assert (Http.url_with_query url params = Http.Rejected malformed) as Hurl.
    { apply url_with_query_rejected. by exists entries. }
    unfold Http.request. by rewrite Hurl.
Qed.




(** [request] resolves exactly when the response [fetch] gave is [ok] and
    its [json()] resolves, and then with the value of [json()]. *)
Theorem request_resolves_iff (client : Http.DefaultHttpClient)
    (apiToken : option string) (url method : string)
    (params : option Http.HttpQueryParameters) (body : option Http.Value)
    (headers : option Http.HttpHeaders) (result : Http.Value) :
  Http.outcome (request client apiToken url method params body headers) =
    Http.Resolved result
  ↔ ∃ call response,
      Http.fetched (request client apiToken url method params body headers) = [call]
      ∧ Http.fetch client (Http.fetched_url call) (Http.fetched_init call) =
          Http.Resolved response
      ∧ Http.ok response = true
      ∧ Http.json response = Http.Resolved result.
Proof.
  unfold Http.request.
  destruct (Http.url_with_query url params) as [url'|malformed]; simpl;
    [|split; [done|]; by intros (? & ? & ? & _)].
  destruct (match body with Some b => JSON_stringify b | None => _ end) as [jsonBody|error];
    simpl.
  - split.
    + intros Hresolved.
      destruct (Http.fetch client _ _) as [response|error] eqn:Hfetch;
        simpl in Hresolved.
      * eexists _, response. split; [reflexivity|]. split; [exact Hfetch|].
        unfold Http.bodyToResponse, Http.bodyToApiError in Hresolved.
        destruct (Http.ok response); simpl in Hresolved.
        -- destruct (Http.json response); [|done]. by simplify_eq.
        -- destruct (Http.text response) as [text|e]; simpl in Hresolved;
             [destruct (api_error_data text)|destruct (Http.instanceof_DfuseError e)];
             done.
      * by destruct (Http.instanceof_DfuseError error).
    + intros (call' & response & [= <-] & Hfetch & Hok & Hjson).
      simpl in Hfetch. rewrite Hfetch. simpl. unfold Http.bodyToResponse.
      by rewrite Hok, Hjson.
  - split; [done|]. by intros (? & ? & ? & _).
Qed.

(** Once [fetch] has been called, what [request] throws is a [DfuseError]:
    a [DfuseApiError] or a [DfuseClientError]. *)
Theorem request_throws_DfuseError (client : Http.DefaultHttpClient)
    (apiToken : option string) (url method : string)
    (params : option Http.HttpQueryParameters) (body : option Http.Value)
    (headers : option Http.HttpHeaders) (error : Http.Error) :
  Http.outcome (request client apiToken url method params body headers) =
    Http.Rejected error →
  Http.fetched (request client apiToken url method params body headers) ≠ [] →
  Http.instanceof_DfuseError error = true.
Proof.
  unfold Http.request.
  destruct (Http.url_with_query url params) as [url'|malformed]; simpl; [|done].
  destruct (match body with Some b => JSON_stringify b | None => _ end) as [jsonBody|e];
    simpl; [|done].
  intros Hrejected _. unfold Http.rethrow in Hrejected.
  destruct (Http.handle_response _ _) as [v|e]; [done|].
  destruct (Http.instanceof_DfuseError e) eqn:He; by simplify_eq.
Qed.

(** A response that is not [ok] makes [request] throw, whatever its
    [json()] would give: the [DfuseApiError] built from the text of the
    body; if that cannot be built, a [DfuseClientError] that quotes the
    body and wraps the cause; if the text cannot be read, the error of
    [text()], wrapped unless it is a [DfuseError]. *)
Theorem request_not_ok (client : Http.DefaultHttpClient)
    (apiToken : option string) (url method : string)
    (params : option Http.HttpQueryParameters) (body : option Http.Value)
    (headers : option Http.HttpHeaders) (call : Http.FetchCall)
    (response : Http.HttpResponse) :
  Http.fetched (request client apiToken url method params body headers) = [call] →
  Http.fetch client (Http.fetched_url call) (Http.fetched_init call) =
    Http.Resolved response →
  Http.ok response = false →
  Http.outcome (request client apiToken url method params body headers) =
    Http.Rejected
      match Http.text response with
      | Http.Resolved text =>
          match api_error_data text with
          | Http.Resolved data => Http.DfuseApiError data
          | Http.Rejected cause =>
              Http.DfuseClientError
                ("The returned body shall have been a valid JSON object, got '"
                 +:+ text +:+ "'")
                (Some cause)
          end
      | Http.Rejected cause =>
          if Http.instanceof_DfuseError cause then cause
          else Http.DfuseClientError "Unable to perform HTTP request correctly"
                 (Some cause)
      end.
Proof.
  unfold Http.request.
  destruct (Http.url_with_query url params) as [url'|malformed]; simpl; [|done].
  destruct (match body with Some b => JSON_stringify b | None => _ end) as [jsonBody|e];
    simpl; [|done].
  intros [= <-]. simpl. intros -> Hok. simpl. rewrite Hok. simpl.
  unfold Http.bodyToApiError.
  destruct (Http.text response) as [text|cause]; simpl.
  - by destruct (api_error_data text).
  - by destruct (Http.instanceof_DfuseError cause).
Qed.

(** When [fetch] itself fails, or [json()] of an [ok] response fails,
    [request] throws a [DfuseClientError] that wraps the cause. *)
Theorem request_wraps_failures (client : Http.DefaultHttpClient)
    (apiToken : option string) (url method : string)
    (params : option Http.HttpQueryParameters) (body : option Http.Value)
    (headers : option Http.HttpHeaders) (call : Http.FetchCall) :
  Http.fetched (request client apiToken url method params body headers) = [call] →
  (∀ description,
     Http.fetch client (Http.fetched_url call) (Http.fetched_init call) =
       Http.Rejected (Http.ForeignError description) →
     Http.outcome (request client apiToken url method params body headers) =
       Http.Rejected (Http.DfuseClientError "Unable to perform HTTP request correctly"
                        (Some (Http.ForeignError description))))
  ∧ (∀ response cause,
       Http.fetch client (Http.fetched_url call) (Http.fetched_init call) =
         Http.Resolved response →
       Http.ok response = true →
       Http.json response = Http.Rejected cause →
       Http.outcome (request client apiToken url method params body headers) =
         Http.Rejected (Http.DfuseClientError
                          "The returned body shall have been a valid JSON object"
                          (Some cause))).
Proof.
  unfold Http.request.
  destruct (Http.url_with_query url params) as [url'|malformed]; simpl; [|done].
  destruct (match body with Some b => JSON_stringify b | None => _ end) as [jsonBody|e];
    simpl; [|done].
  intros [= <-]. simpl. split.
  - by intros description ->.
  - intros response cause -> Hok Hjson. simpl. unfold Http.bodyToResponse.
    by rewrite Hok, Hjson.
Qed.

End HttpClient.

(** ** Query strings *)

Lemma every_cons (test : Ascii.ascii → bool) (c : Ascii.ascii) (s : string) :
  every test (String c s) = test c && every test s.
Proof. reflexivity. Qed.

Lemma every_app (test : Ascii.ascii → bool) (s1 s2 : string) :
  every test (s1 +:+ s2) = every test s1 && every test s2.
Proof.
  induction s1 as [|c s1 IH]; [done|].
  rewrite string_app_cons. simpl. by rewrite IH, andb_assoc.
Qed.

Lemma every_impl (test1 test2 : Ascii.ascii → bool) (s : string) :
  (∀ c, test1 c = true → test2 c = true) →
  every test1 s = true → every test2 s = true.
Proof.
  intros Himpl. induction s as [|c s IH]; [done|]. simpl.
  intros [Hc Hs]%andb_true_iff. by rewrite (Himpl c Hc), IH.
Qed.

(** What [Encode] makes of one byte. *)
Lemma Encode_cons (c : Ascii.ascii) (s : string) :
  Http.Encode (String c s) =
    (if Http.unreserved c then String c "" else Http.escape c)
    +:+ Http.Encode s.
Proof. reflexivity. Qed.

Lemma encoded_byte (c : Ascii.ascii) (rest : string) :
  let piece := if Http.unreserved c then String c "" else Http.escape c in
  every (λ c, Http.unreserved c || bool_decide (c = "%"%char)) piece = true
  ∧ piece ≠ ""
  ∧ percent_decode (piece +:+ rest) = String c (percent_decode rest).
Proof.
  destruct c as [[] [] [] [] [] [] [] []]; (split; [|split]); try done;
    vm_compute; reflexivity.
Qed.

Lemma Encode_characters (s : string) :
  every (λ c, Http.unreserved c || bool_decide (c = "%"%char)) (Http.Encode s) = true.
Proof.
  induction s as [|c s IH]; [done|].
  rewrite Encode_cons, every_app, IH.
  by destruct (encoded_byte c "") as (-> & _).
Qed.

Lemma percent_decode_Encode (s : string) : percent_decode (Http.Encode s) = s.
Proof.
  induction s as [|c s IH]; [done|].
  rewrite Encode_cons.
  destruct (encoded_byte c (Http.Encode s)) as (_ & _ & ->).
  by rewrite IH.
Qed.

Lemma Encode_inj (s1 s2 : string) : Http.Encode s1 = Http.Encode s2 → s1 = s2.
Proof.
  intros Heq.
  by rewrite <-(percent_decode_Encode s1), Heq, percent_decode_Encode.
Qed.

(** What [encodeURIComponent] returns, when it returns. *)
Lemma encodeURIComponent_resolved (s encoded : string) :
  Http.encodeURIComponent s = Http.Resolved encoded ↔
  Http.isWellFormed s = true ∧ encoded = Http.Encode s.
Proof.
  unfold Http.encodeURIComponent. destruct (Http.isWellFormed s); split;
    try done; [by intros [= <-]|by intros [_ ->]|by intros [? _]].
Qed.

(** A string without the separator, followed by the separator, can be
    read back in one way only. *)
Lemma separated_inj (separator : Ascii.ascii) (a b x y : string) :
  every (λ c, negb (bool_decide (c = separator))) a = true →
  every (λ c, negb (bool_decide (c = separator))) b = true →
  a +:+ String separator x = b +:+ String separator y →
  a = b ∧ x = y.
Proof.
  revert b. induction a as [|c a IH]; intros [|d b] Ha Hb Heq;
    rewrite ?string_app_empty_l, ?string_app_cons in Heq; simpl in Ha, Hb.
  - by simplify_eq.
  - simplify_eq. by rewrite bool_decide_eq_true_2 in Hb.
  - simplify_eq. by rewrite bool_decide_eq_true_2 in Ha.
  - simplify_eq.
    apply andb_true_iff in Ha as [_ Ha]. apply andb_true_iff in Hb as [_ Hb].
    by destruct (IH b Ha Hb) as [-> ->].
Qed.

Lemma separated_not_plain (separator : Ascii.ascii) (a b x : string) :
  every (λ c, negb (bool_decide (c = separator))) a = true →
  a ≠ b +:+ String separator x.
Proof.
  intros Ha ->. rewrite every_app in Ha. simpl in Ha.
  rewrite bool_decide_eq_true_2 in Ha by done.
  by rewrite andb_false_r in Ha.
Qed.

Lemma Encode_query_characters (s : string) :
  every query_character (Http.Encode s) = true.
Proof.
  apply (every_impl (λ c, Http.unreserved c || bool_decide (c = "%"%char))).
  - intros c. unfold query_character.
    intros [Hc|Hc%bool_decide_eq_true]%orb_true_iff; [by rewrite Hc|by subst].
  - apply Encode_characters.
Qed.

Lemma Encode_without (separator : Ascii.ascii) (s : string) :
  Http.unreserved separator = false →
  separator ≠ "%"%char →
  every (λ c, negb (bool_decide (c = separator))) (Http.Encode s) = true.
Proof.
  intros Hreserved Hpercent.
  apply (every_impl (λ c, Http.unreserved c || bool_decide (c = "%"%char))).
  - intros c Hc. apply negb_true_iff, bool_decide_eq_false. intros ->.
    apply orb_true_iff in Hc as [Hc|Hc%bool_decide_eq_true]; congruence.
  - apply Encode_characters.
Qed.

Lemma query_entry_characters (entry : string * string) :
  every query_character (query_entry entry) = true
  ∧ every (λ c, negb (bool_decide (c = "&"%char))) (query_entry entry) = true
  ∧ query_entry entry ≠ "".
Proof.
  unfold query_entry. split; [|split].
  - rewrite !every_app. simpl. by rewrite !Encode_query_characters.
  - rewrite !every_app. simpl. by rewrite !Encode_without.
  - destruct (Http.Encode entry.1); [|done].
    by rewrite string_app_empty_l.
Qed.

Lemma query_entry_inj (entry1 entry2 : string * string) :
  query_entry entry1 = query_entry entry2 → entry1 = entry2.
Proof.
  destruct entry1 as [k1 v1], entry2 as [k2 v2]. unfold query_entry. simpl.
  intros Heq. apply (separated_inj "="%char) in Heq as [Hk Hv].
  - by rewrite (Encode_inj _ _ Hk), (Encode_inj _ _ Hv).
  - by apply Encode_without.
  - by apply Encode_without.
Qed.

(** The entry [queryParams] builds for a key and a value, when it can be
    built: the value has been converted to a string. *)
Lemma queryParams_entry_resolved (key : string) (value : Http.ParameterValue)
    (entry : string) :
  Http.queryParams_entry key value = Http.Resolved entry →
  ∃ text, Http.ToString value = Http.Resolved text ∧ entry = query_entry (key, text).
Proof.
  unfold Http.queryParams_entry, Http.encodeURIComponent.
  destruct (Http.isWellFormed key); simpl; [|done].
  destruct (Http.ToString value) as [text|e]; simpl; [|done].
  destruct (Http.isWellFormed text); simpl; [|done].
  intros [= <-]. by exists text.
Qed.

Lemma queryParams_entries_resolved (params : Http.HttpQueryParameters)
    (entries : list string) :
  Http.queryParams_entries params = Http.Resolved entries →
  ∃ texts, entries = query_entry <$> texts
           ∧ converted_entries params = resolved_entries texts.
Proof.
  revert entries. induction params as [|[key value] params IH]; intros entries.
  - intros [= <-]. by exists [].
  - assert (value = Http.JsUndefined ∨
            (Http.queryParams_entries ((key, value) :: params) =
               Http.and_then (Http.queryParams_entry key value) (λ entry,
               Http.and_then (Http.queryParams_entries params) (λ entries,
               Http.Resolved (entry :: entries)))
             ∧ converted_entries ((key, value) :: params) =
                 (key, Http.ToString value) :: converted_entries params))
      as [->|[-> Hconverted]] by (destruct value; auto).
    + simpl. intros Hrest. destruct (IH _ Hrest) as (texts & -> & Htexts).
      by exists texts.
    + intros Hresolved.
      destruct (Http.queryParams_entry key value) as [entry|e] eqn:Hentry; [|done].
      cbn [Http.and_then] in Hresolved.
      destruct (Http.queryParams_entries params) as [rest|e]; [|done].
      cbn [Http.and_then] in Hresolved. injection Hresolved as <-.
      destruct (queryParams_entry_resolved key value entry Hentry) as (text & Htext & ->).
      destruct (IH rest eq_refl) as (texts & -> & Htexts).
      exists ((key, text) :: texts). split; [done|].
      by rewrite Hconverted, Htext, Htexts.
Qed.

Lemma queryParams_resolved (params : Http.HttpQueryParameters) (query : string) :
  Http.queryParams params = Http.Resolved query →
  ∃ texts, query = Http.join "&" (query_entry <$> texts)
           ∧ converted_entries params = resolved_entries texts.
Proof.
  unfold Http.queryParams.
  destruct (Http.queryParams_entries params) as [entries|e] eqn:Hentries; [|done].
  simpl. intros [= <-].
  destruct (queryParams_entries_resolved params entries Hentries) as (texts & -> & Htexts).
  by exists texts.
Qed.

Lemma converted_entries_nil (params : Http.HttpQueryParameters) :
  converted_entries params = [] ↔ Forall (λ entry, entry.2 = Http.JsUndefined) params.
Proof.
  induction params as [|[key value] params IH].
  - split; [constructor|done].
  - rewrite Forall_cons. unfold converted_entries in *. cbn [omap list_omap].
    destruct value; simpl; rewrite ?IH; split; try done; by intros [? ?].
Qed.

Lemma join_more (c : Ascii.ascii) (entry entry' : string) (entries : list string) :
  Http.join (String c "") (entry :: entry' :: entries) =
    entry +:+ String c (Http.join (String c "") (entry' :: entries)).
Proof. reflexivity. Qed.

Lemma join_nonempty (c : Ascii.ascii) (entry : string) (entries : list string) :
  entry ≠ "" → Http.join (String c "") (entry :: entries) ≠ "".
Proof.
  intros Hentry. destruct entries as [|entry' entries]; [done|].
  rewrite join_more. destruct entry; [done|]. by rewrite string_app_cons.
Qed.

Lemma join_characters (test : Ascii.ascii → bool) (c : Ascii.ascii)
    (entries : list string) :
  test c = true →
  Forall (λ entry, every test entry = true) entries →
  every test (Http.join (String c "") entries) = true.
Proof.
  intros Hc. induction 1 as [|entry entries Hentry Hentries IH]; [done|].
  destruct entries as [|entry' entries]; [done|].
  by rewrite join_more, every_app, Hentry, every_cons, Hc, IH.
Qed.

Lemma join_inj (c : Ascii.ascii) (entries1 entries2 : list string) :
  Forall (λ entry, every (λ d, negb (bool_decide (d = c))) entry = true ∧ entry ≠ "")
    entries1 →
  Forall (λ entry, every (λ d, negb (bool_decide (d = c))) entry = true ∧ entry ≠ "")
    entries2 →
  Http.join (String c "") entries1 = Http.join (String c "") entries2 →
  entries1 = entries2.
Proof.
  intros H1. revert entries2.
  induction H1 as [|entry1 entries1 [Hfree1 Hentry1] H1 IH];
    intros entries2 H2 Heq.
  - destruct H2 as [|entry2 entries2 [_ Hentry2] _]; [done|].
    symmetry in Heq. by apply join_nonempty in Heq.
  - destruct H2 as [|entry2 entries2 [Hfree2 Hentry2] H2].
    { by apply join_nonempty in Heq. }
    destruct entries1 as [|entry1' entries1], entries2 as [|entry2' entries2].
    + simpl in Heq. by subst.
    + rewrite join_more in Heq. simpl in Heq.
      by apply separated_not_plain in Heq.
    + rewrite join_more in Heq. simpl in Heq. symmetry in Heq.
      by apply separated_not_plain in Heq.
    + rewrite !join_more in Heq.
      apply separated_inj in Heq as [-> Heq]; [|done..].
      by rewrite (IH _ H2 Heq).
Qed.

Lemma query_entries_well_formed (entries : list (string * string)) :
  Forall (λ entry, every (λ d, negb (bool_decide (d = "&"%char))) entry = true
                   ∧ entry ≠ "")
    (query_entry <$> entries).
Proof.
  apply Forall_fmap, Forall_true. intros entry. simpl.
  by destruct (query_entry_characters entry) as (_ & ? & ?).
Qed.

Lemma query_entries_inj (texts1 texts2 : list (string * string)) :
  query_entry <$> texts1 = query_entry <$> texts2 → texts1 = texts2.
Proof.
  revert texts2. induction texts1 as [|entry1 texts1 IH]; intros [|entry2 texts2];
    try done.
  rewrite !fmap_cons. intros [= Hentry%query_entry_inj Hentries%IH]. by subst.
Qed.

(** A query string is made of the characters [encodeURIComponent] leaves
    alone and of [%], [=] and [&], whatever the keys and values are. *)
Theorem queryParams_characters (params : Http.HttpQueryParameters) (query : string) :
  Http.queryParams params = Http.Resolved query →
  every query_character query = true.
Proof.
  intros (texts & -> & _)%queryParams_resolved.
  apply join_characters; [done|].
  apply Forall_fmap, Forall_true. intros entry. simpl.
  by destruct (query_entry_characters entry) as (? & _).
Qed.

Lemma queryParams_characters_witness :
  every query_character "account=eosio&scope=a%20b&limit=10" = true.
Proof.
  apply (queryParams_characters
           [("account", Http.JsString "eosio"); ("scope", Http.JsString "a b");
            ("json", Http.JsUndefined); ("limit", Http.JsNumber "10")]).
  vm_compute. reflexivity.
Defined.

(** Two parameter objects have the same query string only if they have the
    same keys, in the same order, with values whose conversions to a
    string are the same, entries whose value is [undefined] left aside.
    The values themselves need not be the same: a number and the string of
    its digits give one query string. *)
Theorem queryParams_injective (params1 params2 : Http.HttpQueryParameters)
    (query : string) :
  (Http.queryParams params1 = Http.Resolved query →
   Http.queryParams params2 = Http.Resolved query →
   converted_entries params1 = converted_entries params2)
  ∧ (∀ key text,
       Http.queryParams ((key, Http.JsNumber text) :: params1) =
       Http.queryParams ((key, Http.JsString text) :: params1)).
Proof.
  split; [|done].
  intros (texts1 & -> & ->)%queryParams_resolved (texts2 & Heq & ->)%queryParams_resolved.
  apply join_inj in Heq; [|apply query_entries_well_formed..].
  by rewrite (query_entries_inj _ _ Heq).
Qed.

Lemma queryParams_injective_witness :
  converted_entries [("limit", Http.JsNumber "10"); ("block_num", Http.JsUndefined)] =
    converted_entries [("json", Http.JsUndefined); ("limit", Http.JsString "10")].
Proof.
  apply (proj1 (queryParams_injective
                  [("limit", Http.JsNumber "10"); ("block_num", Http.JsUndefined)]
                  [("json", Http.JsUndefined); ("limit", Http.JsString "10")]
                  "limit=10")); vm_compute; reflexivity.
Defined.

(** The query string is empty exactly when no parameter has a value. *)
Theorem queryParams_empty_iff (params : Http.HttpQueryParameters) :
  Http.queryParams params = Http.Resolved ""
  ↔ Forall (λ entry, entry.2 = Http.JsUndefined) params.
Proof.
  split.
  - intros (texts & Hquery & Htexts)%queryParams_resolved.
    apply converted_entries_nil. rewrite Htexts.
    destruct texts as [|entry texts]; [done|]. exfalso.
    symmetry in Hquery. revert Hquery. rewrite fmap_cons. apply join_nonempty.
    by destruct (query_entry_characters entry) as (_ & _ & ?).
  - intros Hall. unfold Http.queryParams.
    assert (Http.queryParams_entries params = Http.Resolved []) as ->; [|done].
    induction Hall as [|[key value] params Hvalue _ IH]; [done|].
    simpl in *. by subst.
Qed.

(** ** Worked requests *)

Lemma request_body_not_serializable_witness :
  Http.request stringify parse_error (http_client server) None
    "https://auth.dfuse.io/v1/auth/issue" "POST" None (Some (Http.js_value "cyclic")) None =
    {| Http.outcome := Http.Rejected (Http.ForeignError "TypeError: cyclic object value");
       Http.fetched := [] |}.
Proof.
  apply (request_body_not_serializable stringify parse_error (http_client server) None
           "https://auth.dfuse.io/v1/auth/issue" "POST" None (Http.js_value "cyclic") None
           (Http.ForeignError "TypeError: cyclic object value")).
  vm_compute. reflexivity.
Defined.

Lemma request_fetches_once_witness :
  (∃ call,
     Http.fetched (Http.request stringify parse_error (http_client server) (Some "token")
                     "https://mainnet.eos.dfuse.io/v0/state/table" "GET"
                     (Some [("account", Http.JsString "eosio")]) None None) = [call]
     ∧ Http.method (Http.fetched_init call) = "GET"
     ∧ Http.body (Http.fetched_init call) = None)
  ∧ Http.request stringify parse_error (http_client server) (Some "token")
      "https://mainnet.eos.dfuse.io/v0/state/table" "GET"
      (Some [("account", Http.JsString lone_surrogate)]) None None =
      {| Http.outcome := Http.Rejected Http.URIError; Http.fetched := [] |}.
Proof.
  split.
  - apply (proj1 (request_fetches_once stringify parse_error (http_client server)
                    (Some "token") "https://mainnet.eos.dfuse.io/v0/state/table" "GET"
                    (Some [("account", Http.JsString "eosio")]) None None None)).
    + exists "account=eosio". vm_compute. reflexivity.
    + reflexivity.
  - apply (proj2 (request_fetches_once stringify parse_error (http_client server)
                    (Some "token") "https://mainnet.eos.dfuse.io/v0/state/table" "GET"
                    (Some [("account", Http.JsString lone_surrogate)]) None None None)
             [("account", Http.JsString lone_surrogate)]).
    + reflexivity.
    + done.
    + vm_compute. reflexivity.
Defined.

Lemma request_throws_DfuseError_witness :
  Http.instanceof_DfuseError
    (Http.DfuseClientError "Unable to perform HTTP request correctly"
       (Some (Http.ForeignError "TypeError: Failed to fetch"))) = true.
Proof.
  apply (request_throws_DfuseError stringify parse_error (http_client offline)
           (Some "token") "https://mainnet.eos.dfuse.io/v0/state/table" "GET"
           None None None).
  - vm_compute. reflexivity.
  - vm_compute. discriminate.
Defined.

Lemma request_not_ok_witness :
  Http.outcome (Http.request stringify parse_error (http_client server) (Some "token")
                  "https://mainnet.eos.dfuse.io/v0/state/abi" "GET" None None None) =
    Http.Rejected
      (Http.DfuseClientError
         "The returned body shall have been a valid JSON object, got 'Not Found'"
         (Some (Http.ForeignError "SyntaxError: Unexpected token"))).
Proof.
  eapply (request_not_ok stringify parse_error (http_client server) (Some "token")
            "https://mainnet.eos.dfuse.io/v0/state/abi" "GET" None None None _ not_found).
  - vm_compute. reflexivity.
  - vm_compute. reflexivity.
  - reflexivity.
Defined.

Lemma request_wraps_failures_witness :
  Http.outcome (Http.request stringify parse_error (http_client offline) (Some "token")
                  "https://mainnet.eos.dfuse.io/v0/state/table" "GET" None None None) =
    Http.Rejected
      (Http.DfuseClientError "Unable to perform HTTP request correctly"
         (Some (Http.ForeignError "TypeError: Failed to fetch"))).
Proof.
  refine (proj1 (request_wraps_failures stringify parse_error (http_client offline)
                   (Some "token") "https://mainnet.eos.dfuse.io/v0/state/table" "GET"
                   None None None _ _) "TypeError: Failed to fetch" _).
  - vm_compute. reflexivity.
  - reflexivity.
Defined.



Lemma request_resolves_iff_witness :
  Http.outcome (Http.request stringify parse_error (http_client server) (Some "token")
                  "https://mainnet.eos.dfuse.io/v0/state/table" "GET"
                  (Some [("account", Http.JsString "eosio")]) None None) =
    Http.Resolved (Http.js_value "rows").
Proof.
  apply (proj2 (request_resolves_iff stringify parse_error (http_client server)
                  (Some "token") "https://mainnet.eos.dfuse.io/v0/state/table" "GET"
                  (Some [("account", Http.JsString "eosio")]) None None
                  (Http.js_value "rows"))).
  eexists _, table_rows. split; [vm_compute; reflexivity|].
  split; [vm_compute; reflexivity|]. done.
Defined.

(** ** createHttpClient *)

(** [createHttpClient] fails, with the [DfuseClientError] that explains how
    to provide one, exactly when no [fetch] is given and neither [window]
    nor [global] has one; a [fetch] given in the options is the one of the
    client whatever the global scope holds, and the two urls are kept. *)
Theorem createHttpClient_fetch (globals : Http.Globals) (authUrl apiUrl : string)
    (options_fetch : option Http.Fetch) :
  (Http.createHttpClient globals authUrl apiUrl options_fetch =
     Http.Rejected (Http.DfuseClientError Http.no_fetch_message None)
   ↔ options_fetch = None
     ∧ mjoin (Http.window globals) = None
     ∧ mjoin (Http.global globals) = None)
  ∧ (∀ client,
       Http.createHttpClient globals authUrl apiUrl options_fetch = Http.Resolved client →
       Http.authUrl client = authUrl
       ∧ Http.apiUrl client = apiUrl
       ∧ Some (Http.fetch client) =
           match options_fetch, mjoin (Http.window globals) with
           | Some fetch, _ => Some fetch
           | None, Some fetch => Some fetch
           | None, None => mjoin (Http.global globals)
           end)
  ∧ (∀ error,
       Http.createHttpClient globals authUrl apiUrl options_fetch = Http.Rejected error →
       error = Http.DfuseClientError Http.no_fetch_message None).
Proof.
  unfold Http.createHttpClient, Http.inferFetch.
  destruct options_fetch as [fetch|], globals as [[[w|]|] [[g|]|]]; simpl;
    (split; [split; [try done|intros (? & ? & ?); by simplify_eq]|]);
    (split; [intros client ?; by simplify_eq|]);
    intros error ?; by simplify_eq.
Qed.

Lemma createHttpClient_fetch_witness :
  Http.createHttpClient {| Http.window := None; Http.global := Some None |}
    "https://auth.dfuse.io" "https://mainnet.eos.dfuse.io" None =
    Http.Rejected (Http.DfuseClientError Http.no_fetch_message None).
Proof.
  apply (proj1 (createHttpClient_fetch {| Http.window := None; Http.global := Some None |}
                  "https://auth.dfuse.io" "https://mainnet.eos.dfuse.io" None)).
  done.
Defined.
